(** * convert.py: webm clips whose resolution follows keyframes

    A shallow embedding of [convert.py] and the properties of its
    interpolation table, frame plan, deduplicating image cache,
    concatenation list, command lines and clean-up discipline.

    Python values are modelled as the interpreter has them: [int] is an
    unbounded integer ([Z]), [float] is an IEEE-754 binary64 number (the
    [spec_float] of the standard library at precision 53), a [dict] that is
    scanned in insertion order is an association list, a [dict] that is only
    looked up is a [gmap], and an exception is an [outcome] that is not
    [Ok].  [print] calls write to the terminal only and are left out. *)

From Stdlib Require Import ZArith QArith Lia Ascii.
From Stdlib Require Import Floats.SpecFloat.
From stdpp Require Import base option list gmap strings pretty.

Local Open Scope Z_scope.

(** ** Exceptions and outcomes *)

(** The exceptions the program can end a call with.  [SystemExit (Some msg)]
    is [sys.exit(msg)]: the message goes to stderr and the exit status is 1;
    [SystemExit None] is the plain [sys.exit()]. *)
Inductive pyexn : Type :=
  | SystemExit (arg : option string)
  | KeyboardInterrupt
  | TypeError
  | ValueError
  | KeyError
  | ZeroDivisionError
  | OverflowError.

Inductive outcome (A : Type) : Type :=
  | Ok (a : A)
  | Exc (e : pyexn).
Arguments Ok {A} a.
Arguments Exc {A} e.

Global Instance outcome_ret : MRet outcome := @Ok.
Global Instance outcome_bind : MBind outcome := λ A B f m,
  match m with
  | Ok a => f a
  | Exc e => Exc e
  end.

Definition sys_exit {A : Type} (msg : string) : outcome A :=
  Exc (SystemExit (Some msg)).

Global Instance pyexn_eq_dec : EqDecision pyexn.
Proof. solve_decision. Defined.

(** ** Numbers *)

Module Num.

(** binary64 *)
Definition prec : Z := 53.
Definition emax : Z := 1024.

Abbreviation float := spec_float.

Inductive num : Type :=
  | NInt (z : Z)
  | NFloat (f : float).

(** *** Exact values, for comparisons

    Python compares numbers by their mathematical value, also an [int]
    with a [float]; a comparison with NaN is false. *)
Inductive xval : Type :=
  | XNaN
  | XNegInf
  | XFin (q : Q)
  | XPosInf.

Definition float_val (f : float) : xval :=
  match f with
  | S754_nan => XNaN
  | S754_infinity s => if s then XNegInf else XPosInf
  | S754_zero _ => XFin (inject_Z 0)
  | S754_finite s m e =>
      let sm := cond_Zopp s (Zpos m) in
      XFin (if 0 <=? e then inject_Z (sm * 2 ^ e)
            else Qmake sm (Z.to_pos (2 ^ (- e))))
  end.

Definition num_val (n : num) : xval :=
  match n with
  | NInt z => XFin (inject_Z z)
  | NFloat f => float_val f
  end.

Definition Qltb (a b : Q) : bool :=
  Qnum a * QDen b <? Qnum b * QDen a.

Definition xltb (a b : xval) : bool :=
  match a, b with
  | XNegInf, (XFin _ | XPosInf) => true
  | XFin _, XPosInf => true
  | XFin p, XFin q => Qltb p q
  | _, _ => false
  end.

Definition xeqb (a b : xval) : bool :=
  match a, b with
  | XNegInf, XNegInf | XPosInf, XPosInf => true
  | XFin p, XFin q => Qeq_bool p q
  | _, _ => false
  end.

(** [a > b] and [a == b] on numbers *)
Definition gt (a b : num) : bool := xltb (num_val b) (num_val a).
Definition eqb (a b : num) : bool := xeqb (num_val a) (num_val b).

(** *** Conversions *)

(** [float(z)] for an [int]: the nearest binary64 (ties to even), and
    [OverflowError] when that is out of range. *)
Definition of_int (z : Z) : outcome float :=
  match binary_normalize prec emax z 0 false with
  | S754_infinity _ => Exc OverflowError
  | f => Ok f
  end.

Definition to_float (n : num) : outcome float :=
  match n with
  | NInt z => of_int z
  | NFloat f => Ok f
  end.

(** the integer part of a finite float, toward zero *)
Definition trunc (f : float) : outcome Z :=
  match f with
  | S754_nan => Exc ValueError
  | S754_infinity _ => Exc OverflowError
  | S754_zero _ => Ok 0
  | S754_finite s m e => Ok (cond_Zopp s (Z.shiftl (Zpos m) e))
  end.

(** [int(x)] *)
Definition int (n : num) : outcome Z :=
  match n with
  | NInt z => Ok z
  | NFloat f => trunc f
  end.

(** [math.ceil(x)] *)
Definition ceil (n : num) : outcome Z :=
  match n with
  | NInt z => Ok z
  | NFloat S754_nan => Exc ValueError
  | NFloat (S754_infinity _) => Exc OverflowError
  | NFloat (S754_zero _) => Ok 0
  | NFloat (S754_finite s m e) =>
      Ok (- Z.shiftl (- cond_Zopp s (Zpos m)) e)
  end.

(** [math.floor(x)] *)
Definition floor (n : num) : outcome Z :=
  match n with
  | NInt z => Ok z
  | NFloat S754_nan => Exc ValueError
  | NFloat (S754_infinity _) => Exc OverflowError
  | NFloat (S754_zero _) => Ok 0
  | NFloat (S754_finite s m e) => Ok (Z.shiftl (cond_Zopp s (Zpos m)) e)
  end.

(** *** Arithmetic

    [int] with [int] stays exact; as soon as one operand is a [float] the
    other one is converted and the operation is the binary64 one. *)
Definition sub (a b : num) : outcome num :=
  match a, b with
  | NInt x, NInt y => Ok (NInt (x - y))
  | _, _ => x ← to_float a; y ← to_float b; Ok (NFloat (SFsub prec emax x y))
  end.

Definition add (a b : num) : outcome num :=
  match a, b with
  | NInt x, NInt y => Ok (NInt (x + y))
  | _, _ => x ← to_float a; y ← to_float b; Ok (NFloat (SFadd prec emax x y))
  end.

Definition mul (a b : num) : outcome num :=
  match a, b with
  | NInt x, NInt y => Ok (NInt (x * y))
  | _, _ => x ← to_float a; y ← to_float b; Ok (NFloat (SFmul prec emax x y))
  end.

Definition is_zero (f : float) : bool :=
  match f with
  | S754_zero _ => true
  | _ => false
  end.

(** an integer as an exact (not normalised) mantissa with exponent 0 *)
Definition exact_int (z : Z) : float :=
  match z with
  | Z0 => S754_zero false
  | Zpos p => S754_finite false p 0
  | Zneg p => S754_finite true p 0
  end.

(** [a / b]: true division.  Two [int]s give the correctly rounded quotient
    of the exact integers; a zero divisor raises. *)
Definition truediv (a b : num) : outcome num :=
  match a, b with
  | NInt x, NInt y =>
      if y =? 0 then Exc ZeroDivisionError
      else match SFdiv prec emax (exact_int x) (exact_int y) with
           | S754_infinity _ => Exc OverflowError
           | q => Ok (NFloat q)
           end
  | _, _ =>
      x ← to_float a; y ← to_float b;
      if is_zero y then Exc ZeroDivisionError
      else Ok (NFloat (SFdiv prec emax x y))
  end.

(** C's [fmod]: the exact remainder of the truncated quotient, with the sign
    of the dividend. *)
Definition fmod (x y : float) : float :=
  match x, y with
  | S754_nan, _ | _, S754_nan => S754_nan
  | S754_infinity _, _ => S754_nan
  | _, S754_zero _ => S754_nan
  | _, S754_infinity _ => x
  | S754_zero _, _ => x
  | S754_finite sx mx ex, S754_finite _ my ey =>
      let e0 := Z.min ex ey in
      let r := Z.rem (Z.shiftl (Zpos mx) (ex - e0)) (Z.shiftl (Zpos my) (ey - e0)) in
      binary_normalize prec emax (cond_Zopp sx r) e0 sx
  end.

Definition float_neg (f : float) : bool :=
  xltb (float_val f) (XFin (inject_Z 0)).

Definition copysign0 (w : float) : float :=
  match w with
  | S754_zero s | S754_infinity s | S754_finite s _ _ => S754_zero s
  | S754_nan => S754_zero false
  end.

(** [v % w] on floats, as [float_rem] of CPython: [fmod], moved into the
    sign of the divisor. *)
Definition float_rem (v w : float) : outcome float :=
  if is_zero w then Exc ZeroDivisionError
  else
    let m := fmod v w in
    if is_zero m then Ok (copysign0 w)
    else if negb (Bool.eqb (float_neg w) (float_neg m))
         then Ok (SFadd prec emax m w)
         else Ok m.

Definition mod_ (a b : num) : outcome num :=
  match a, b with
  | NInt x, NInt y =>
      if y =? 0 then Exc ZeroDivisionError else Ok (NInt (x `mod` y))
  | _, _ => x ← to_float a; y ← to_float b; r ← float_rem x y; Ok (NFloat r)
  end.


(** *** Text of a float

    [repr(x)], which [str(x)] and the f-string [{x}] give as well: the
    shortest decimal digits that read back as the same binary64 (ties between
    two such strings go to the one nearer to [x], then to the even last
    digit), written positionally when the decimal point falls within
    [-4 < decpt <= 16] and with an exponent otherwise. *)

(** [r / s] is the value scaled by [10^-k], [mp / s] and [mm / s] the
    distances to the midpoints of the neighbouring floats. *)
Record dragon : Type := Dragon { dr_r : Z; dr_s : Z; dr_mp : Z; dr_mm : Z }.

Definition dragon_init (m : positive) (e : Z) : dragon :=
  let narrow := (Zpos m =? 2 ^ (prec - 1)) && (emin prec emax <? e) in
  if 0 <=? e then
    if narrow then Dragon (Zpos m * 2 ^ (e + 1) * 2) 4 (2 ^ (e + 1)) (2 ^ e)
    else Dragon (Zpos m * 2 ^ e * 2) 2 (2 ^ e) (2 ^ e)
  else
    if narrow then Dragon (Zpos m * 4) (2 ^ (- e + 1) * 2) 2 1
    else Dragon (Zpos m * 2) (2 ^ (- e) * 2) 1 1.

Definition dragon_scale (d : dragon) (k : Z) : dragon :=
  if 0 <=? k then Dragon (dr_r d) (dr_s d * 10 ^ k) (dr_mp d) (dr_mm d)
  else Dragon (dr_r d * 10 ^ (- k)) (dr_s d) (dr_mp d * 10 ^ (- k)) (dr_mm d * 10 ^ (- k)).

(** the upper midpoint lies below [10^k] (or on it, when it does not round
    back to the float) *)
Definition below_pow10 (incl : bool) (d : dragon) (k : Z) : bool :=
  let d' := dragon_scale d k in
  if incl then dr_r d' + dr_mp d' <? dr_s d' else dr_r d' + dr_mp d' <=? dr_s d'.

Fixpoint find_decpt (fuel : nat) (incl : bool) (d : dragon) (k : Z) : Z :=
  match fuel with
  | O => k
  | S fuel =>
      if below_pow10 incl d k then
        if below_pow10 incl d (k - 1) then find_decpt fuel incl d (k - 1) else k
      else find_decpt fuel incl d (k + 1)
  end.

Fixpoint gen_digits (fuel : nat) (incl : bool) (r s mp mm : Z) : list Z :=
  match fuel with
  | O => []
  | S fuel =>
      let d := (r * 10) / s in
      let r := (r * 10) mod s in
      let mp := mp * 10 in
      let mm := mm * 10 in
      let low := if incl then r <=? mm else r <? mm in
      let high := if incl then s <=? r + mp else s <? r + mp in
      match low, high with
      | false, false => d :: gen_digits fuel incl r s mp mm
      | true, false => [d]
      | false, true => [d + 1]
      | true, true =>
          match 2 * r ?= s with
          | Lt => [d]
          | Gt => [d + 1]
          | Eq => [if Z.even d then d else d + 1]
          end
      end
  end.

Definition digit_char (d : Z) : ascii := ascii_of_N (Z.to_N (48 + d)).

Definition digits_text (ds : list Z) : string :=
  fold_right (λ d s, String (digit_char d) s) EmptyString ds.

Fixpoint zeros (n : nat) : string :=
  match n with
  | O => EmptyString
  | S n => String "0"%char (zeros n)
  end.

(** digits and the position [decpt] of the decimal point: the value is
    [0.d1d2... * 10^decpt] *)
Definition shortest_digits (m : positive) (e : Z) : list Z * Z :=
  let incl := Z.even (Zpos m) in
  let d := dragon_init m e in
  let k0 := ((e + Z.log2 (Zpos m)) * 1233) / 4096 in
  let k := find_decpt 2000 incl d k0 in
  let d' := dragon_scale d k in
  (gen_digits 20 incl (dr_r d') (dr_s d') (dr_mp d') (dr_mm d'), k).

Definition finite_text (ds : list Z) (decpt : Z) : string :=
  let n := Z.of_nat (length ds) in
  if (decpt <=? -4) || (16 <? decpt) then
    let e := decpt - 1 in
    let mant :=
      match ds with
      | [] => EmptyString
      | [d] => String (digit_char d) EmptyString
      | d :: rest => String (digit_char d) ("." +:+ digits_text rest)
      end in
    let et := pretty (Z.abs e) in
    mant +:+ "e" +:+ (if e <? 0 then "-" else "+")
         +:+ (if Z.abs e <? 10 then "0" +:+ et else et)
  else if decpt <=? 0 then
    "0." +:+ zeros (Z.to_nat (- decpt)) +:+ digits_text ds
  else if decpt <? n then
    digits_text (take (Z.to_nat decpt) ds) +:+ "." +:+ digits_text (drop (Z.to_nat decpt) ds)
  else
    digits_text ds +:+ zeros (Z.to_nat (decpt - n)) +:+ ".0".

Definition float_repr (f : float) : string :=
  match f with
  | S754_nan => "nan"
  | S754_infinity s => if s then "-inf" else "inf"
  | S754_zero s => if s then "-0.0" else "0.0"
  | S754_finite s m e =>
      let '(ds, decpt) := shortest_digits m e in
      (if s then "-" else EmptyString) +:+ finite_text ds decpt
  end.

(** [str(n)] *)
Definition str (n : num) : string :=
  match n with
  | NInt z => pretty z
  | NFloat f => float_repr f
  end.

End Num.

Import Num.

(** ** The interpolation table *)

(** A key of the table [info]: the [time] of a keyframe as [readInstructions]
    stores it.  It is a JSON number, the [duration] put in for ["end"], or a
    string of digits (see [readInstructions]). *)
Inductive key : Type :=
  | KNum (n : num)
  | KStr (s : string).

(** The value [[kfWidth, kfHeight]] of a keyframe; a dimension the size
    specification does not give stays [None]. *)
Definition kfsize : Type := option Z * option Z.

(** [info], a [dict] in insertion order *)
Definition table : Type := list (key * kfsize).

(** [time > k] for a number [time]: a string on the right is a [TypeError] *)
Definition key_gt (time : num) (k : key) : outcome bool :=
  match k with
  | KNum n => Ok (gt time n)
  | KStr _ => Exc TypeError
  end.

(** [a - b] on table keys *)
Definition key_sub (a b : key) : outcome num :=
  match a, b with
  | KNum x, KNum y => sub x y
  | _, _ => Exc TypeError
  end.

(** [a - b] on keyframe dimensions ([None - x] is a [TypeError]) *)
Definition dim_sub (a b : option Z) : outcome Z :=
  match a, b with
  | Some x, Some y => Ok (x - y)
  | _, _ => Exc TypeError
  end.

(** [max(1, int(p + mult * d))] *)
Definition blend (p : option Z) (mult : num) (d : Z) : outcome Z :=
  match p with
  | Some p =>
      m ← mul mult (NInt d);
      s ← add (NInt p) m;
      v ← int s;
      Ok (Z.max 1 v)
  | None => Exc TypeError
  end.

(** The loop of [getInterpolatedSize]: the state is [(prev, next)]. *)
Fixpoint scan (items : table) (time : num)
    (prev next : option (key * kfsize)) :
    outcome (option (key * kfsize) * option (key * kfsize)) :=
  match items with
  | [] => Ok (prev, next)
  | (t, kf) :: rest =>
      match prev with
      | None => scan rest time (Some (t, kf)) next
      | Some _ =>
          let next' := match next with None => (t, kf) | Some n => n end in
          b ← key_gt time (fst next');
          if b : bool then scan rest time (Some (t, kf)) None
          else scan rest time prev (Some next')
      end
  end.

(** The three lines after the loop, for the pair the loop ends with. *)
Definition interpolate (prev next : key * kfsize) (time : num) :
    outcome (Z * Z) :=
  a ← key_sub (KNum time) (fst prev);
  b ← key_sub (fst next) (fst prev);
  mult ← truediv a b;
  d0 ← dim_sub (fst (snd next)) (fst (snd prev));
  d1 ← dim_sub (snd (snd next)) (snd (snd prev));
  w ← blend (fst (snd prev)) mult d0;
  h ← blend (snd (snd prev)) mult d1;
  Ok (w, h).

Definition getInterpolatedSize (info : table) (time : num) : outcome (Z * Z) :=
  '(prev, next) ← scan info time None None;
  match next with
  | None => sys_exit "Could not interpolate"
  | Some n =>
      match prev with
      | Some p => interpolate p n time
      | None => Exc TypeError
      end
  end.

(** ** Text *)

Definition nl : string := String (ascii_of_N 10) EmptyString.

(** [s.replace(old, new)] and [s.replace(old, new, count)] for a non-empty
    [old]: occurrences are replaced from the left and do not overlap.
    [skip] counts the characters of a match still to be dropped. *)
Fixpoint replace_go (old new : string) (count : option nat) (skip : nat)
    (s : string) : string :=
  match s with
  | EmptyString => EmptyString
  | String c s' =>
      match skip with
      | S k => replace_go old new count k s'
      | O =>
          match count with
          | Some O => s
          | _ =>
              if String.prefix old s
              then new +:+ replace_go old new (Nat.pred <$> count)
                                      (String.length old - 1) s'
              else String c (replace_go old new count 0 s')
          end
      end
  end.

Definition replace (old new s : string) : string :=
  replace_go old new None 0 s.

Definition replace_first (old new s : string) : string :=
  replace_go old new (Some 1%nat) 0 s.

(** [sub in s] for strings *)
Fixpoint contains (sub s : string) : bool :=
  String.prefix sub s ||
  match s with
  | EmptyString => false
  | String _ s' => contains sub s'
  end.

(** ** The staging directory and the other effects *)

(** What the program changes outside itself.  The still image
    [temp/frame-i.png] is kept with its pixel size; the external [ffmpeg]
    runs are kept as the command lines handed to [os.system], whose exit
    status the program ignores. *)
Record fsys : Type := Fsys {
  temp : bool;                    (* ./temp exists *)
  frames : gmap nat (Z * Z);      (* temp/frame-i.png *)
  concat : list string;           (* temp/concat.txt, what was written, in order *)
  issued : list string;           (* os.system calls, in order *)
  moved : list string             (* destinations of shutil.move("temp/out.webm", _) *)
}.

Definition M (A : Type) : Type := fsys → outcome A * fsys.

Global Instance M_ret : MRet M := λ A a fs, (Ok a, fs).
Global Instance M_bind : MBind M := λ A B f m fs,
  match m fs with
  | (Ok a, fs') => f a fs'
  | (Exc e, fs') => (Exc e, fs')
  end.

Definition lift {A : Type} (o : outcome A) : M A := λ fs, (o, fs).
Definition get : M fsys := λ fs, (Ok fs, fs).
Definition modify (f : fsys → fsys) : M () := λ fs, (Ok (), f fs).

Definition save_frame (i : nat) (size : Z * Z) : M () :=
  modify (λ fs, Fsys (temp fs) (<[i := size]> (frames fs)) (concat fs)
                     (issued fs) (moved fs)).

Definition write_concat (text : string) : M () :=
  modify (λ fs, Fsys (temp fs) (frames fs) (concat fs ++ [text])
                     (issued fs) (moved fs)).

Definition os_system (cmd : string) : M () :=
  modify (λ fs, Fsys (temp fs) (frames fs) (concat fs)
                     (issued fs ++ [cmd]) (moved fs)).

Definition shutil_move (dst : string) : M () :=
  modify (λ fs, Fsys (temp fs) (frames fs) (concat fs)
                     (issued fs) (moved fs ++ [dst])).

Definition executeRawFfmpegCommad (cmd : string) : M () :=
  os_system ("ffmpeg -hide_banner -loglevel error " +:+ cmd).

(** [cleanup]: [shutil.rmtree("./temp")] when the directory exists *)
Definition cleanup : M () :=
  modify (λ fs, if temp fs
                then Fsys false ∅ [] (issued fs) (moved fs)
                else fs).

Definition prepare : M () :=
  _ ← cleanup;
  modify (λ fs, if temp fs then fs
                else Fsys true (frames fs) (concat fs) (issued fs) (moved fs)).

(** ** The frame plan and the image cache (transparent mode) *)

(** the loop variables of [makeTransparentImages] *)
Record dedup : Type := Dedup {
  imageDict : gmap (Z * Z) nat;
  index : nat;
  indexList : list nat
}.

(** [(i * (1/fps)) % duration] *)
Definition frameTime (i : nat) (fps duration : num) : outcome num :=
  step ← truediv (NInt 1) fps;
  t ← mul (NInt (Z.of_nat i)) step;
  mod_ t duration.

Fixpoint makeTransparentImages_loop (info : table) (fps duration : num)
    (range : list nat) (d : dedup) : M dedup :=
  match range with
  | [] => mret d
  | i :: range =>
      size ← lift (t ← frameTime i fps duration; getInterpolatedSize info t);
      d' ← match imageDict d !! size with
           | None =>
               _ ← save_frame (index d) size;
               mret (Dedup (<[size := index d]> (imageDict d))
                           (S (index d))
                           (indexList d ++ [index d]))
           | Some j =>
               mret (Dedup (imageDict d) (index d) (indexList d ++ [j]))
           end;
      makeTransparentImages_loop info fps duration range d'
  end.

(** one line of [temp/concat.txt], [f"file {basePath}.webm\n"] *)
Definition concat_entry (basePath : string) : string :=
  "file " +:+ basePath +:+ ".webm" +:+ nl.

Fixpoint write_all (lines : list string) : M () :=
  match lines with
  | [] => mret ()
  | l :: lines => _ ← write_concat l; write_all lines
  end.

(** [max(l)]; the empty list is a [ValueError] *)
Definition list_max (l : list nat) : outcome nat :=
  match l with
  | [] => Exc ValueError
  | x :: l => Ok (foldr Nat.max x l)
  end.

Definition makeTransparentImages (info : table) (count : Z)
    (fps duration : num) : M nat :=
  d ← makeTransparentImages_loop info fps duration (seq 0 (Z.to_nat count))
        (Dedup ∅ 0 []);
  _ ← write_all ((λ i : nat, concat_entry ("frame-" +:+ pretty i)) <$> indexList d);
  lift (list_max (indexList d)).

(** ** Resizing the extracted frames (video mode) *)

(** [np.arange(0, stop, step)] for float arguments: [ceil(stop / step)]
    samples [0 + i * step]; a length that is not a number is a
    [ValueError].  The samples are float64 scalars of numpy; they are taken
    here as Python floats, which have the same values and the same
    arithmetic wherever no division by zero occurs. *)
Definition np_arange (stop step : num) : outcome (list float) :=
  x ← to_float stop;
  d ← to_float step;
  match SFdiv prec emax (SFsub prec emax x (S754_zero false)) d with
  | S754_nan | S754_infinity _ => Exc ValueError
  | q =>
      len ← ceil (NFloat q);
      Ok ((λ i : nat,
             SFadd prec emax (S754_zero false)
               (SFmul prec emax (binary_normalize prec emax (Z.of_nat i) 0 false) d))
          <$> seq 0 (Z.to_nat len))
  end.

Fixpoint scaleImages_loop (info : table) (fps time : num)
    (samples : list (nat * float)) (count : nat) : M nat :=
  match samples with
  | [] => mret count
  | (i, t) :: samples =>
      _ ← lift (p ← mul time fps; floor p);
      fs ← get;
      match frames fs !! i with
      | None => lift (sys_exit "Try to read non-existent frame image")
      | Some _ =>
          size ← lift (getInterpolatedSize info (NFloat t));
          _ ← save_frame i size;
          scaleImages_loop info fps time samples i
      end
  end.

Definition scaleImages (info : table) (fps time : num) : M nat :=
  ts ← lift (step ← truediv (NInt 1) fps; np_arange time step);
  scaleImages_loop info fps time (zip (seq 0 (length ts)) ts) 0%nat.

(** ** Encoding the segments *)

(** the command line of one loop round of [createWebms] *)
Definition createWebms_cmd (fps : num) (i : nat) : string :=
  let basePath := "temp/frame-" +:+ pretty i in
  "-framerate " +:+ str fps +:+ " -f image2 -i " +:+ basePath
    +:+ ".png -c:v libvpx-vp9 -pix_fmt yuva420p " +:+ basePath +:+ ".webm".

Fixpoint createWebms_loop (fps : num) (write : bool) (range : list nat) : M () :=
  match range with
  | [] => mret ()
  | i :: range =>
      _ ← executeRawFfmpegCommad (createWebms_cmd fps i);
      _ ← (if write
           then write_concat (concat_entry ("temp/frame-" +:+ pretty i))
           else mret ());
      createWebms_loop fps write range
  end.

Definition createWebms (fps : num) (count : nat) (write : bool) : M () :=
  createWebms_loop fps write (seq 0 (count + 1)).

(** the command line of [processSingleWebm] *)
Definition processSingleWebm_cmd (fps : num) (i : nat) : string :=
  let basePath := "temp/frame-" +:+ pretty i in
  "-framerate " +:+ str fps +:+ " -f image2 -i " +:+ basePath
    +:+ ".png -c:v libvpx-vp9 " +:+ basePath +:+ ".webm".

Definition processSingleWebm (i : nat) (fps : num) : M () :=
  executeRawFfmpegCommad (processSingleWebm_cmd fps i).

Fixpoint run_tasks (fps : num) (tasks : list nat) : M () :=
  match tasks with
  | [] => mret ()
  | i :: tasks => _ ← processSingleWebm i fps; run_tasks fps tasks
  end.

(** [createWebmsFast].  The pool hands the tasks [0 .. count] to its worker
    processes; [sched] is the order in which their commands happen to run.
    The list file is written afterwards by the one main process. *)
Definition createWebmsFast (sched : list nat → list nat) (fps : num)
    (count : nat) (write : bool) : M () :=
  _ ← run_tasks fps (sched (seq 0 (count + 1)));
  if write
  then write_all ((λ i : nat, concat_entry ("frame-" +:+ pretty i)) <$> seq 0 (count + 1))
  else mret ().

(** ** Joining and muxing *)

Definition concatWebms : M () :=
  executeRawFfmpegCommad "-f concat -safe 0 -i temp/concat.txt -c copy -y temp/out.webm".

Definition extractAudio (video : string) : M () :=
  executeRawFfmpegCommad ("-y -i " +:+ video +:+ " temp/audio.wav").

Definition getOutput (video : string) : string :=
  replace ".mp4" "_resized.webm" video.

Definition setAudio_cmd (video : string) : string :=
  "-i temp/out.webm -i temp/audio.wav -map 0:V:0 -map 1:a:0 -c:v copy -c:a libopus -b:a 160k -f webm "
    +:+ getOutput video.

Definition setAudio (video : string) : M () :=
  executeRawFfmpegCommad (setAudio_cmd video).

Definition moveToOutput (video : string) : M () :=
  shutil_move (getOutput video).

(** ** Parsed JSON and the Python operations on it *)

(** What [json.load] returns: [None], [bool], [int] or [float], [str],
    [list], [dict].  A character of a string is a code point below 256. *)
#[local] Unset Elimination Schemes.
Inductive json : Type :=
  | JNull
  | JBool (b : bool)
  | JNum (n : num)
  | JStr (s : string)
  | JList (l : list json)
  | JObj (l : list (string * json)).
#[local] Set Elimination Schemes.

Definition is_str (s : string) (v : json) : bool :=
  match v with
  | JStr s' => String.eqb s s'
  | _ => false
  end.

Fixpoint assoc (k : string) (l : list (string * json)) : option json :=
  match l with
  | [] => None
  | (k', v) :: l => if String.eqb k k' then Some v else assoc k l
  end.

(** [k in v] for a string [k] *)
Definition py_in (k : string) (v : json) : outcome bool :=
  match v with
  | JObj l => Ok (bool_decide (is_Some (assoc k l)))
  | JList l => Ok (existsb (is_str k) l)
  | JStr s => Ok (contains k s)
  | _ => Exc TypeError
  end.

(** [v[k]] for a string [k] *)
Definition py_getitem (v : json) (k : string) : outcome json :=
  match v with
  | JObj l =>
      match assoc k l with
      | Some x => Ok x
      | None => Exc KeyError
      end
  | _ => Exc TypeError
  end.

Fixpoint chars (s : string) : list json :=
  match s with
  | EmptyString => []
  | String c s => JStr (String c EmptyString) :: chars s
  end.

(** the items a [for] loop over [v] visits *)
Definition py_iter (v : json) : outcome (list json) :=
  match v with
  | JList l => Ok l
  | JObj l => Ok ((λ kv, JStr (fst kv)) <$> l)
  | JStr s => Ok (chars s)
  | _ => Exc TypeError
  end.

(** *** [str.isdigit], [int(str)], [float(str)] *)

Definition is_ascii_digit (c : ascii) : bool :=
  let n := N_of_ascii c in ((48 <=? n) && (n <=? 57))%N.

(** the digits of [str.isdigit] below 256: 0-9 and the superscripts 1, 2, 3 *)
Definition is_digit_char (c : ascii) : bool :=
  let n := N_of_ascii c in
  (is_ascii_digit c || (n =? 178) || (n =? 179) || (n =? 185))%N.

Fixpoint all_chars (p : ascii → bool) (s : string) : bool :=
  match s with
  | EmptyString => true
  | String c s => p c && all_chars p s
  end.

Definition isdigit (s : string) : bool :=
  match s with
  | EmptyString => false
  | _ => all_chars is_digit_char s
  end.

(** white space of [str.strip] below 256 *)
Definition is_space (c : ascii) : bool :=
  let n := N_of_ascii c in
  (((9 <=? n) && (n <=? 13)) || ((28 <=? n) && (n <=? 32)) || (n =? 133) || (n =? 160))%N.

Definition strip (s : list ascii) : list ascii :=
  let drop_space := fix go (s : list ascii) : list ascii :=
    match s with
    | c :: s' => if is_space c then go s' else s
    | [] => []
    end in
  reverse (drop_space (reverse (drop_space s))).

Definition digit_val (c : ascii) : Z := Z.of_N (N_of_ascii c) - 48.

(** one group of digits, single underscores allowed between two digits:
    its value, the number of digits, and the rest of the text *)
Fixpoint read_digits (s : list ascii) (acc : Z) (n : nat) : Z * nat * list ascii :=
  match s with
  | c :: s' =>
      if is_ascii_digit c then read_digits s' (acc * 10 + digit_val c) (S n)
      else if Ascii.eqb c "_" then
        match n, s' with
        | S _, d :: s'' =>
            if is_ascii_digit d then read_digits s'' (acc * 10 + digit_val d) (S n)
            else (acc, n, s)
        | _, _ => (acc, n, s)
        end
      else (acc, n, s)
  | [] => (acc, n, [])
  end.

Definition read_sign (s : list ascii) : bool * list ascii :=
  match s with
  | c :: s' =>
      if Ascii.eqb c "-" then (true, s')
      else if Ascii.eqb c "+" then (false, s')
      else (false, s)
  | [] => (false, [])
  end.

(** [int(s)] for a string *)
Definition int_of_text (s : string) : outcome Z :=
  let '(neg, body) := read_sign (strip (String.list_ascii_of_string s)) in
  match read_digits body 0 0 with
  | (v, S _, []) => Ok (if neg then - v else v)
  | _ => Exc ValueError
  end.

Definition lower (c : ascii) : ascii :=
  let n := N_of_ascii c in
  if ((65 <=? n) && (n <=? 90))%N then ascii_of_N (n + 32) else c.

(** the binary64 nearest to [d * 10^e] for [d >= 0] *)
Definition decimal_to_float (neg : bool) (d e : Z) : float :=
  let x :=
    if d =? 0 then S754_zero false
    else if 0 <=? e then binary_normalize prec emax (d * 10 ^ e) 0 false
    else SFdiv prec emax (exact_int d) (exact_int (10 ^ (- e))) in
  if neg then SFopp x else x.

(** [float(s)] for a string *)
Definition float_of_text (s : string) : outcome float :=
  let '(neg, body) := read_sign (strip (String.list_ascii_of_string s)) in
  let word := String.string_of_list_ascii (lower <$> body) in
  if String.eqb word "inf" || String.eqb word "infinity" then Ok (S754_infinity neg)
  else if String.eqb word "nan" then Ok S754_nan
  else
    let '(ip, n1, r1) := read_digits body 0 0 in
    let '(fp, n2, r2) :=
      match r1 with
      | c :: r => if Ascii.eqb c "." then read_digits r ip 0 else (ip, 0%nat, r1)
      | [] => (ip, 0%nat, [])
      end in
    match (n1 + n2)%nat with
    | O => Exc ValueError
    | S _ =>
        match r2 with
        | [] => Ok (decimal_to_float neg fp (- Z.of_nat n2))
        | c :: r =>
            if Ascii.eqb (lower c) "e" then
              let '(eneg, r3) := read_sign r in
              match read_digits r3 0 0 with
              | (ev, S _, []) =>
                  Ok (decimal_to_float neg fp ((if eneg then - ev else ev) - Z.of_nat n2))
              | _ => Exc ValueError
              end
            else Exc ValueError
        end
    end.

(** [float(v)] *)
Definition py_float (v : json) : outcome float :=
  match v with
  | JNum n => to_float n
  | JBool b => Ok (binary_normalize prec emax (if b then 1 else 0) 0 false)
  | JStr s => float_of_text s
  | _ => Exc TypeError
  end.

(** [int(v)] *)
Definition py_int (v : json) : outcome Z :=
  match v with
  | JNum n => int n
  | JBool b => Ok (if b then 1 else 0)
  | JStr s => int_of_text s
  | _ => Exc TypeError
  end.

(** ** Reading the instructions *)

(** [./instructions.json]: missing, not JSON, or a parsed document *)
Inductive instr_file : Type :=
  | NoFile
  | BadJson
  | Doc (instructions : json).

(** [str(time)] of a scalar.  A list or a dict prints inside brackets or
    braces, which no digit string does. *)
Definition time_text (time : json) : option string :=
  match time with
  | JNull => Some "None"
  | JBool b => Some (if b then "True" else "False")
  | JNum n => Some (str n)
  | JStr s => Some s
  | JList _ | JObj _ => None
  end.

(** [str(time).replace('.','',1).isdigit()] *)
Definition time_ok (time : json) : bool :=
  match time_text time with
  | Some s => isdigit (replace_first "." EmptyString s)
  | None => false
  end.

(** [time] as a key of [info].  [None] and the booleans never get here
    ([time_ok] is false for them); a list or dict is not hashable. *)
Definition key_of (time : json) : outcome key :=
  match time with
  | JNum n => Ok (KNum n)
  | JStr s => Ok (KStr s)
  | _ => Exc TypeError
  end.

(** equality of dict keys: numbers by value, strings by content *)
Definition key_eqb (a b : key) : bool :=
  match a, b with
  | KNum x, KNum y => Num.eqb x y
  | KStr s, KStr t => String.eqb s t
  | _, _ => false
  end.

(** [info[k] = v]: an existing key keeps its place (and its key object) *)
Fixpoint table_set (info : table) (k : key) (v : kfsize) : table :=
  match info with
  | [] => [(k, v)]
  | (k', v') :: rest =>
      if key_eqb k' k then (k', v) :: rest
      else (k', v') :: table_set rest k v
  end.

(** [int(dim * float(size[field]))] *)
Definition scaled (dim : num) (size : json) (field : string) : outcome Z :=
  x ← py_getitem size field;
  f ← py_float x;
  p ← mul dim (NFloat f);
  int p.

(** the body of the [try] *)
Definition resolve_size (width height : num) (size : json) : outcome kfsize :=
  let kf : kfsize := (None, None) in
  b ← py_in "scale" size;
  kf ← (if b : bool then
          w ← scaled width size "scale";
          h ← scaled height size "scale";
          Ok (Some w, Some h)
        else Ok kf);
  b ← py_in "wScale" size;
  kf ← (if b : bool then w ← scaled width size "wScale"; Ok (Some w, snd kf)
        else Ok kf);
  b ← py_in "hScale" size;
  kf ← (if b : bool then h ← scaled height size "hScale"; Ok (fst kf, Some h)
        else Ok kf);
  b ← py_in "width" size;
  kf ← (if b : bool then x ← py_getitem size "width"; w ← py_int x; Ok (Some w, snd kf)
        else Ok kf);
  b ← py_in "height" size;
  kf ← (if b : bool then x ← py_getitem size "height"; h ← py_int x; Ok (fst kf, Some h)
        else Ok kf);
  Ok kf.

(** one round of the loop over the keyframes *)
Definition readKeyframe (width height duration : num) (info : table)
    (kf : json) : outcome table :=
  b ← py_in "time" kf;
  if negb b then sys_exit "No time for keyframe" else
  time ← py_getitem kf "time";
  let time := if is_str "end" time then JNum duration else time in
  if negb (time_ok time) then sys_exit "invalid time" else
  b ← py_in "time" kf;
  if negb b then sys_exit "No size for keyframe" else
  size ← py_getitem kf "size";
  sz ← match resolve_size width height size with
       | Ok sz => Ok sz
       | Exc _ => sys_exit "Invalid size for keyframe"
       end;
  k ← key_of time;
  Ok (table_set info k sz).

Fixpoint readKeyframes (width height duration : num) (info : table)
    (kfs : list json) : outcome table :=
  match kfs with
  | [] => Ok info
  | kf :: kfs =>
      info' ← readKeyframe width height duration info kf;
      readKeyframes width height duration info' kfs
  end.

Definition readInstructions (width height duration : num)
    (file : instr_file) : outcome table :=
  match file with
  | NoFile => sys_exit "No instruction!"
  | BadJson => Exc ValueError
  | Doc instructions =>
      b ← py_in "keyframes" instructions;
      if negb b then sys_exit "No keyframe data" else
      kfs ← py_getitem instructions "keyframes";
      items ← py_iter kfs;
      readKeyframes width height duration [] items
  end.

(** ** The command line *)

(** [ascii(s)]: the text of [s] inside quotes, with a backslash escape for
    the backslash, the quote in use, control characters and every character
    above 127.  The quote is ['], or ["] when [s] has a ['] and no ["]. *)
Definition squote : ascii := ascii_of_N 39.
Definition dquote : ascii := ascii_of_N 34.
Definition backslash : ascii := ascii_of_N 92.

Fixpoint has_char (c : ascii) (s : string) : bool :=
  match s with
  | EmptyString => false
  | String x s => Ascii.eqb c x || has_char c s
  end.

Definition hex_digit (n : N) : ascii :=
  if (n <? 10)%N then ascii_of_N (48 + n) else ascii_of_N (87 + n).

Definition escape_char (quote c : ascii) : string :=
  let n := N_of_ascii c in
  if Ascii.eqb c quote || Ascii.eqb c backslash
  then String backslash (String c EmptyString)
  else if (n =? 9)%N then String backslash "t"
  else if (n =? 10)%N then String backslash "n"
  else if (n =? 13)%N then String backslash "r"
  else if ((n <? 32) || (127 <=? n))%N
  then String backslash
         (String "x" (String (hex_digit (n / 16)) (String (hex_digit (n mod 16)) EmptyString)))
  else String c EmptyString.

Fixpoint escape (quote : ascii) (s : string) : string :=
  match s with
  | EmptyString => EmptyString
  | String c s => escape_char quote c +:+ escape quote s
  end.

Definition py_ascii (s : string) : string :=
  let quote := if has_char squote s && negb (has_char dquote s) then dquote else squote in
  String quote (escape quote s +:+ String quote EmptyString).

(** *** The pattern of [re.search] *)

Inductive regex : Type :=
  | RChar (c : ascii)
  | RSeq (a b : regex)
  | RAlt (a b : regex)
  | REnd.

(** [$] holds at the end of the text and before a last line feed *)
Definition at_end (s : list ascii) : bool :=
  match s with
  | [] => true
  | [c] => Ascii.eqb c (ascii_of_N 10)
  | _ => false
  end.

(** [r] matches a prefix of [s] and [k] accepts what is left *)
Fixpoint rmatch (r : regex) (s : list ascii) (k : list ascii → bool) : bool :=
  match r with
  | RChar c =>
      match s with
      | x :: s' => Ascii.eqb c x && k s'
      | [] => false
      end
  | RSeq a b => rmatch a s (λ s', rmatch b s' k)
  | RAlt a b => rmatch a s k || rmatch b s k
  | REnd => at_end s && k s
  end.

(** [re.search(r, s)] finds a match at some position *)
Fixpoint search_from (r : regex) (s : list ascii) : bool :=
  rmatch r s (λ _, true) ||
  match s with
  | [] => false
  | _ :: s' => search_from r s'
  end.

Definition re_search (r : regex) (s : string) : bool :=
  search_from r (String.list_ascii_of_string s).

(** [r'\.(mp4|webm)$'] *)
Definition video_suffix : regex :=
  RSeq (RChar ".")
    (RSeq (RAlt (RSeq (RChar "m") (RSeq (RChar "p") (RChar "4")))
                (RSeq (RChar "w") (RSeq (RChar "e") (RSeq (RChar "b") (RChar "m")))))
          REnd).

(** ** A run *)

(** The steps of a run during which Ctrl-C can arrive. *)
Inductive phase : Type :=
  | InPrepare | InReadInstructions | InImages | InExtractFrames | InScale
  | InEncode | InConcat | InExtractAudio | InSetAudio | InMove | InCleanup.

Global Instance phase_eq_dec : EqDecision phase.
Proof. solve_decision. Defined.

(** what [ffmpeg.probe] and the four lines after it yield, and how many
    frames the extraction writes *)
Record media : Type := Media {
  m_time : float;
  m_width : Z;
  m_height : Z;
  m_fps : Z;
  m_frames : nat
}.

(** What a run meets outside the program. *)
Record world : Type := World {
  instructions_json : instr_file;     (* ./instructions.json *)
  sigint : option phase;              (* Ctrl-C arrives as this step starts *)
  pool : list nat → list nat;         (* the order the pool runs its tasks in *)
  probed : outcome media;             (* the start of processVideo *)
  path_exists : string → bool         (* os.path.exists *)
}.

Definition during {A : Type} (w : world) (p : phase) (m : M A) : M A :=
  if decide (sigint w = Some p) then lift (Exc KeyboardInterrupt) else m.

(** [with safeExit(onExit): body].  [__exit__] answers [True], which drops
    the exception, for [KeyboardInterrupt] only. *)
Definition safeExit {A : Type} (onExit : option (M ())) (body : M A) : M () :=
  λ fs,
    match body fs with
    | (Ok _, fs') => (Ok (), fs')
    | (Exc KeyboardInterrupt, fs') =>
        match onExit with
        | Some h => h fs'
        | None => (Ok (), fs')
        end
    | (Exc e, fs') => (Exc e, fs')
    end.

Definition makeTransparentVideo (w : world) (slow : bool)
    (duration fps width height loop : num) : M () :=
  frameCount ← lift (a ← mul duration fps; b ← mul a loop; ceil b);
  _ ← safeExit None (
        _ ← during w InPrepare prepare;
        info ← during w InReadInstructions
                 (lift (readInstructions width height duration (instructions_json w)));
        actualCount ← during w InImages
                        (makeTransparentImages info frameCount fps duration);
        _ ← during w InEncode
              (if slow then createWebms fps actualCount false
               else createWebmsFast (pool w) fps actualCount false);
        _ ← during w InConcat concatWebms;
        during w InMove (moveToOutput "out.mp4"));
  during w InCleanup cleanup.

(** [ffmpeg ... -i video ... temp/frame-%d.png]: the frames [0 .. n-1] in
    the native size *)
Definition extractFrames (m : media) : M () :=
  modify (λ fs, Fsys (temp fs)
                  (list_to_map ((λ i : nat, (i, (m_width m, m_height m))) <$> seq 0 (m_frames m)))
                  (concat fs) (issued fs) (moved fs)).

Definition processVideo (w : world) (inputFilePath : string) (slow : bool) : M () :=
  m ← lift (probed w);
  let time := NFloat (m_time m) in
  let width := NInt (m_width m) in
  let height := NInt (m_height m) in
  let fps := NInt (m_fps m) in
  _ ← safeExit None (
        _ ← during w InPrepare prepare;
        info ← during w InReadInstructions
                 (lift (readInstructions width height time (instructions_json w)));
        _ ← during w InExtractFrames (extractFrames m);
        count ← during w InScale (scaleImages info fps time);
        _ ← during w InEncode
              (if slow then createWebms fps count true
               else createWebmsFast (pool w) fps count true);
        _ ← during w InConcat concatWebms;
        _ ← during w InExtractAudio (extractAudio inputFilePath);
        during w InSetAudio (setAudio inputFilePath));
  during w InCleanup cleanup.

(** the words of the command line, before [argparse] converts them *)
Record cli : Type := Cli {
  cli_input : option string;
  cli_slow : bool;
  cli_transparent : option (list float)
}.

Definition main (w : world) (c : cli) : M () :=
  let input := py_ascii <$> cli_input c in            (* type=ascii *)
  let has_input := match input with Some (String _ _) => true | _ => false end in
  let has_transparent := match cli_transparent c with Some (_ :: _) => true | _ => false end in
  if negb has_input && negb has_transparent then lift (sys_exit "No input given!") else
  if has_transparent then
    _ ← match cli_transparent c with
        | Some [d] =>
            makeTransparentVideo w (cli_slow c) (NFloat d) (NInt 30) (NInt 500) (NInt 500) (NInt 1)
        | Some [d; f] =>
            makeTransparentVideo w (cli_slow c) (NFloat d) (NFloat f) (NInt 500) (NInt 500) (NInt 1)
        | Some [d; f; wd] =>
            makeTransparentVideo w (cli_slow c) (NFloat d) (NFloat f) (NFloat wd) (NInt 500) (NInt 1)
        | Some [d; f; wd; ht] =>
            makeTransparentVideo w (cli_slow c) (NFloat d) (NFloat f) (NFloat wd) (NFloat ht) (NInt 1)
        | Some [d; f; wd; ht; l] =>
            makeTransparentVideo w (cli_slow c) (NFloat d) (NFloat f) (NFloat wd) (NFloat ht) (NFloat l)
        | _ => lift (Exc TypeError)
        end;
    lift (Exc (SystemExit None))
  else
    match input with
    | None => lift (Exc TypeError)
    | Some inputFilePath =>
        if negb (re_search video_suffix inputFilePath)
        then lift (sys_exit "No valid input file.")
        else if negb (path_exists w inputFilePath)
        then lift (sys_exit "Input file does not exist.")
        else processVideo w inputFilePath (cli_slow c)
    end.

(** ** Notions of the specification *)

(** The interpolation formula in the words of the specification, read as
    Python arithmetic: [dim = prev.dim + mult * (next.dim - prev.dim)], cut
    toward zero, at least 1. *)
Definition lerp_dim (prev_dim next_dim : Z) (mult : num) : outcome Z :=
  x ← mul mult (NInt (next_dim - prev_dim));
  y ← add (NInt prev_dim) x;
  v ← int y;
  Ok (Z.max 1 v).

(** [mult = (t - prev.time) / (next.time - prev.time)] and both dimensions *)
Definition sizeAt_formula (t prev_time next_time : num)
    (prev_size next_size : Z * Z) : outcome (Z * Z) :=
  a ← sub t prev_time;
  b ← sub next_time prev_time;
  mult ← truediv a b;
  w ← lerp_dim (fst prev_size) (fst next_size) mult;
  h ← lerp_dim (snd prev_size) (snd next_size) mult;
  Ok (w, h).

(** [prev] and [next] are neighbours in the table, every keyframe after the
    first one up to [prev] lies strictly before [t], and [next] does not:
    [prev.time < t <= next.time]. *)
Definition brackets (t : num) (pre : table) (prev next : key * kfsize) : Prop :=
  Forall (λ e, key_gt t (fst e) = Ok true) (tail (pre ++ [prev])) ∧
  key_gt t (fst next) = Ok false.

(** the times of the table are numbers in strictly increasing order *)
Definition key_lt (a b : key) : bool :=
  match a, b with
  | KNum x, KNum y => gt y x
  | _, _ => false
  end.

Fixpoint increasing (info : table) : bool :=
  match info with
  | a :: (b :: _) as rest => key_lt (fst a) (fst b) && increasing rest
  | _ => true
  end.

(** The frame size plan of the transparent mode: the size of every frame
    index of [range], in order. *)
Fixpoint plan (info : table) (fps duration : num) (range : list nat) :
    outcome (list (Z * Z)) :=
  match range with
  | [] => Ok []
  | i :: range =>
      size ← (t ← frameTime i fps duration; getInterpolatedSize info t);
      rest ← plan info fps duration range;
      Ok (size :: rest)
  end.



(** the float of a small integer literal *)
Definition float_of_Z (z : Z) : float := binary_normalize prec emax z 0 false.

(** The table of the two-keyframe example,
    [{0: [100, 100], 10: [200, 50]}]. *)
Definition example_table : table :=
  [(KNum (NInt 0), (Some 100, Some 100)); (KNum (NInt 10), (Some 200, Some 50))].

(** the instruction document of that example *)
Definition example_doc : json :=
  JObj [("keyframes",
         JList [JObj [("time", JNum (NInt 0));
                      ("size", JObj [("width", JNum (NInt 100)); ("height", JNum (NInt 100))])];
                JObj [("time", JNum (NInt 10));
                      ("size", JObj [("width", JNum (NInt 200)); ("height", JNum (NInt 50))])]])].

(** a staging directory that holds the extracted frames [0 .. n-1] *)
Definition staged (n : nat) (size : Z * Z) : fsys :=
  Fsys true (list_to_map ((λ i : nat, (i, size)) <$> seq 0 n)) [] [] [].

(** an empty staging directory, as [prepare] leaves it *)
Definition fresh : fsys := Fsys true ∅ [] [] [].


(** the last character of a text the pattern [video_suffix] finds *)
Definition suffix_end (c : ascii) : Prop :=
  c = "4"%char ∨ c = "m"%char ∨ c = ascii_of_N 10.


(** [m] leaves the staging directory where it is *)
Definition keeps_temp {A : Type} (m : M A) : Prop :=
  ∀ fs, temp (snd (m fs)) = temp fs.



(** no staging directory yet *)
Definition clean : fsys := Fsys false ∅ [] [] [].




(** the size specification names [field] *)
Definition names (field : string) (size : json) : bool :=
  match py_in field size with
  | Ok true => true
  | _ => false
  end.





(** ** Examples of the specification *)




(** ** More of the program, and notions for its properties *)

(** [getFrames]: the file names of [./temp] with every [".png"] taken out of
    them.  [listing] is what [os.walk("./temp")] reports first, the names of
    the files in the directory itself, or [None] when there is no such
    directory: then the loop body never runs and the function returns
    [None]. *)
Definition getFrames (listing : option (list string)) : option (list string) :=
  match listing with
  | Some filenames => Some (replace ".png" EmptyString <$> filenames)
  | None => None
  end.

(** the name of the still image of frame [i] inside [temp] *)
Definition frame_png (i : nat) : string := "frame-" +:+ pretty i +:+ ".png".

(** no two entries of the table have equal keys, as in a [dict] *)
Fixpoint distinct_keys (info : table) : Prop :=
  match info with
  | [] => True
  | e :: rest =>
      Forall (λ x, key_eqb (fst e) (fst x) = false) rest ∧ distinct_keys rest
  end.






(** [{0: [100, None], 10: [200, 50]}]: the first keyframe has no height *)
Definition half_table : table :=
  [(KNum (NInt 0), (Some 100, None)); (KNum (NInt 10), (Some 200, Some 50))].

(** a world with the instructions of the two-keyframe example and no
    interrupt *)
Definition example_world : world :=
  World (Doc example_doc) None id (Exc ValueError) (λ _, false).

(** the dimension [resolve_size] ends with, by the order of its five tests:
    the absolute field when it is named, else the field of the scale of this
    dimension, else ["scale"], else nothing *)
Definition chosen_dim (dim : num) (size : json) (absolute relative : string) :
    outcome (option Z) :=
  if names absolute size then x ← py_getitem size absolute; v ← py_int x; Ok (Some v)
  else if names relative size then v ← scaled dim size relative; Ok (Some v)
  else if names "scale" size then v ← scaled dim size "scale"; Ok (Some v)
  else Ok None.


(** [{scale: 2, wScale: 3, width: 7}] *)
Definition mixed_size : json :=
  JObj [("scale", JNum (NInt 2)); ("wScale", JNum (NInt 3)); ("width", JNum (NInt 7))].


(** every way [getInterpolatedSize] can end without a size *)
Definition getInterpolatedSize_failures : list pyexn :=
  [SystemExit (Some "Could not interpolate"); TypeError; ZeroDivisionError;
   OverflowError; ValueError].

(** [{0: [1, 1], 10**400: [1, 1]}]: the second time is beyond the floats *)
Definition far_table : table :=
  [(KNum (NInt 0), (Some 1, Some 1)); (KNum (NInt (10 ^ 400)), (Some 1, Some 1))].

(** [{2.0**53: [1, 1], 2**53 + 1: [1, 1]}]: two times that differ, and
    whose difference as floats is zero *)
Definition close_table : table :=
  [(KNum (NFloat (float_of_Z (2 ^ 53))), (Some 1, Some 1));
   (KNum (NInt (2 ^ 53 + 1)), (Some 1, Some 1))].

(** ** The interpolation table: proofs *)

Section Interpolation.

Implicit Types (info pre post : table) (t : num) (prev next : key * kfsize).

Lemma bind_ok {A B : Type} (a : A) (f : A → outcome B) :
  (Ok a ≫= f) = f a.
Proof. reflexivity. Qed.

Lemma bind_exc {A B : Type} (e : pyexn) (f : A → outcome B) :
  (Exc e ≫= f) = Exc e.
Proof. reflexivity. Qed.

Lemma bind_inv {A B : Type} (m : outcome A) (f : A → outcome B) (b : B) :
  (m ≫= f) = Ok b → ∃ a, m = Ok a ∧ f a = Ok b.
Proof. destruct m as [a|e]; [by exists a | done]. Qed.

Lemma scan_settled post t prev next :
  key_gt t (fst next) = Ok false →
  scan post t (Some prev) (Some next) = Ok (Some prev, Some next).
Proof.
  intros Hn. induction post as [|[k v] post IH]; [done|].
  cbn [scan]. rewrite Hn. cbn. exact IH.
Qed.

Lemma last_nonempty {A : Type} (a : A) (l : list A) (d d' : A) :
  List.last (a :: l) d = List.last (a :: l) d'.
Proof.
  revert a. induction l as [|b l IH]; intros a; [done|].
  change (List.last (b :: l) d = List.last (b :: l) d'). apply IH.
Qed.

Lemma scan_climb l post t prev :
  Forall (λ e, key_gt t (fst e) = Ok true) l →
  scan (l ++ post) t (Some prev) None = scan post t (Some (List.last l prev)) None.
Proof.
  revert prev. induction l as [|[k v] l IH]; intros prev Hl; [done|].
  inversion Hl as [|? ? Hk Hl']; subst. cbn [fst] in Hk.
  cbn [app scan fst]. rewrite Hk. cbn -[List.last].
  rewrite IH by done. do 2 f_equal. destruct l as [|a l]; [done|].
  change (List.last (a :: l) (k, v) = List.last (a :: l) prev).
  apply last_nonempty.
Qed.

Lemma List_last_snoc {A : Type} (l : list A) (x d : A) : List.last (l ++ [x]) d = x.
Proof. induction l as [|a [|b l] IH]; try done. Qed.

Lemma scan_brackets pre prev next post t :
  brackets t pre prev next →
  scan (pre ++ prev :: next :: post) t None None = Ok (Some prev, Some next).
Proof.
  intros [Hpre Hnext]. destruct next as [kn vn]. cbn [fst] in Hnext.
  destruct pre as [|[k0 v0] pre].
  - destruct prev as [kp vp]. cbn [app scan fst]. rewrite Hnext. cbn.
    by apply (scan_settled post t (kp, vp) (kn, vn)).
  - cbn [app tail] in Hpre. cbn [app scan].
    replace (pre ++ prev :: (kn, vn) :: post)
      with ((pre ++ [prev]) ++ (kn, vn) :: post) by by rewrite <- app_assoc.
    rewrite scan_climb by done. rewrite List_last_snoc.
    cbn [scan fst]. rewrite Hnext. cbn.
    by apply (scan_settled post t prev (kn, vn)).
Qed.

Lemma interpolate_formula t tp tn wp hp wn hn :
  interpolate (KNum tp, (Some wp, Some hp)) (KNum tn, (Some wn, Some hn)) t
  = sizeAt_formula t tp tn (wp, hp) (wn, hn).
Proof.
  unfold interpolate, sizeAt_formula, lerp_dim, blend. cbn [fst snd key_sub dim_sub].
  destruct (sub t tp) as [a|]; [|done]. cbn.
  destruct (sub tn tp) as [b|]; [|done]. cbn.
  destruct (truediv a b) as [mult|]; done.
Qed.

Lemma lerp_dim_ge_1 p n mult v : lerp_dim p n mult = Ok v → 1 ≤ v.
Proof.
  unfold lerp_dim. intros H.
  apply bind_inv in H as (x & _ & H). apply bind_inv in H as (y & _ & H).
  apply bind_inv in H as (z & _ & H). injection H as <-. lia.
Qed.

(** *** The order of exact values *)

Lemma Qltb_lt a b : Qltb a b = true ↔ Qlt a b.
Proof. unfold Qltb, Qlt. apply Z.ltb_lt. Qed.

Lemma xltb_trans a b c : xltb a b = true → xltb b c = true → xltb a c = true.
Proof.
  destruct a, b, c; cbn; try done.
  rewrite !Qltb_lt. apply Qlt_trans.
Qed.

Lemma gt_trans a b c : gt a b = true → gt b c = true → gt a c = true.
Proof. unfold gt. intros H1 H2. by apply (xltb_trans _ (num_val b)). Qed.

Lemma key_gt_lt t a b :
  key_lt a b = true → key_gt t b = Ok true → key_gt t a = Ok true.
Proof.
  destruct a as [x|], b as [y|]; cbn; try done.
  intros Hxy [= Hty]. f_equal. by apply (gt_trans _ y).
Qed.

(** In an increasing table a time beyond some keyframe is beyond all the
    keyframes before it. *)
Lemma increasing_before pre e t :
  increasing (pre ++ [e]) = true →
  key_gt t (fst e) = Ok true →
  Forall (λ x, key_gt t (fst x) = Ok true) (pre ++ [e]).
Proof.
  induction pre as [|a pre IH]; intros Hinc He.
  - by repeat constructor.
  - cbn [app] in *. assert (Hrest : Forall (λ x, key_gt t (fst x) = Ok true) (pre ++ [e])).
    { apply IH; [|done]. destruct pre; cbn in Hinc |- *; [done|].
      by apply andb_prop in Hinc as [_ ?]. }
    constructor; [|done].
    destruct pre as [|b pre]; cbn [app] in *.
    + cbn in Hinc. rewrite andb_true_r in Hinc. by apply (key_gt_lt t _ (fst e)).
    + cbn in Hinc. apply andb_prop in Hinc as [Hab _].
      inversion Hrest; subst. by apply (key_gt_lt t _ (fst b)).
Qed.

Lemma increasing_app_l l1 l2 : increasing (l1 ++ l2) = true → increasing l1 = true.
Proof.
  induction l1 as [|a [|b l1] IH]; try done.
  cbn [app increasing]. intros [? ?]%andb_prop. apply andb_true_intro. split; [done|].
  by apply IH.
Qed.

Lemma increasing_brackets pre prev next post t :
  increasing (pre ++ prev :: next :: post) = true →
  pre = [] ∨ key_gt t (fst prev) = Ok true →
  key_gt t (fst next) = Ok false →
  brackets t pre prev next.
Proof.
  intros Hinc Hprev Hnext. split; [|done].
  destruct Hprev as [->|Hprev]; [by constructor|].
  apply Forall_tail, increasing_before; [|done].
  apply (increasing_app_l _ (next :: post)). by rewrite <- app_assoc.
Qed.




End Interpolation.

(** ** The image cache: proofs *)

Section Dedup.

Implicit Types (sizes seen acc : list (Z * Z)) (d : dedup) (fs : fsys)
  (fr : gmap nat (Z * Z)).

Lemma M_bind_unfold {A B : Type} (m : M A) (f : A → M B) fs :
  (m ≫= f) fs =
  match m fs with
  | (Ok a, fs') => f a fs'
  | (Exc e, fs') => (Exc e, fs')
  end.
Proof. reflexivity. Qed.



Lemma lift_bind_ok {A B : Type} (o : outcome A) (a : A) (f : A → M B) fs :
  o = Ok a → (lift o ≫= f) fs = f a fs.
Proof. by intros ->. Qed.

Lemma lift_bind_exc {A B : Type} (o : outcome A) (e : pyexn) (f : A → M B) fs :
  o = Exc e → (lift o ≫= f) fs = (Exc e, fs).
Proof. by intros ->. Qed.















End Dedup.

(** ** Text: lemmas *)

Section Text.

Implicit Types (a b c p s : string).

Lemma append_cons (x : ascii) a b : String x a +:+ b = String x (a +:+ b).
Proof. reflexivity. Qed.


Lemma append_length a b :
  String.length (a +:+ b) = (String.length a + String.length b)%nat.
Proof. induction a as [|x a IH]; [done|]. rewrite append_cons. cbn. by rewrite IH. Qed.

Lemma append_nil_r a : a +:+ EmptyString = a.
Proof. induction a as [|x a IH]; [done|]. rewrite append_cons. by rewrite IH. Qed.

Lemma append_inj_l p a b : p +:+ a = p +:+ b → a = b.
Proof.
  induction p as [|c p IH]; [done|]. rewrite !append_cons. intros [= H]. by apply IH.
Qed.


End Text.

(** ** Writing the list file and issuing the encodes: proofs *)

Section Encoding.

Implicit Types (fs : fsys) (fps : num).









End Encoding.

(** ** The claims about the interpolation table *)

(** C1.  When [prev] and [next] bracket the query time [t], so when they
    are neighbours in the table, every keyframe after the first up to [prev]
    is strictly before [t] and [next] is not (in a table in increasing time
    order: [prev.time < t <= next.time], or [prev] is the first keyframe and
    [t <= next.time]), [getInterpolatedSize] returns, for each dimension,
    [prev.dim + ((t - prev.time) / (next.time - prev.time)) * (next.dim -
    prev.dim)] cut toward zero and raised to at least 1.  For the table
    [{0: (100,100), 10: (200,50)}] with duration 10 and one frame per second
    the plan has 10 entries, in the video mode ([scaleImages]) and in the
    transparent mode alike, and entry 5 is [(150, 75)]. *)
Theorem C1_sizeAt_interpolates pre post t tp tn wp hp wn hn :
  brackets t pre (KNum tp, (Some wp, Some hp)) (KNum tn, (Some wn, Some hn)) ∨
  (increasing (pre ++ (KNum tp, (Some wp, Some hp)) :: (KNum tn, (Some wn, Some hn)) :: post)
   = true ∧
   (pre = [] ∨ gt t tp = true) ∧ gt t tn = false) →
  getInterpolatedSize
    (pre ++ (KNum tp, (Some wp, Some hp)) :: (KNum tn, (Some wn, Some hn)) :: post) t
  = sizeAt_formula t tp tn (wp, hp) (wn, hn) ∧
  (∀ w h, sizeAt_formula t tp tn (wp, hp) (wn, hn) = Ok (w, h) → 1 ≤ w ∧ 1 ≤ h) ∧
  readInstructions (NInt 640) (NInt 480) (NFloat (float_of_Z 10)) (Doc example_doc)
  = Ok example_table ∧
  (∃ ts, (step ← truediv (NInt 1) (NInt 1); np_arange (NFloat (float_of_Z 10)) step) = Ok ts ∧
         length ts = 10%nat ∧ ts !! 5%nat = Some (float_of_Z 5)) ∧
  getInterpolatedSize example_table (NFloat (float_of_Z 5)) = Ok (150, 75) ∧
  (∃ fs', scaleImages example_table (NInt 1) (NFloat (float_of_Z 10)) (staged 10 (640, 480))
          = (Ok 9%nat, fs') ∧
          size (frames fs') = 10%nat ∧ frames fs' !! 5%nat = Some (150, 75)) ∧
  plan example_table (NFloat (float_of_Z 1)) (NFloat (float_of_Z 10)) (seq 0 10)
  = Ok [(100, 100); (110, 95); (120, 90); (130, 85); (140, 80);
        (150, 75); (160, 70); (170, 65); (180, 60); (190, 55)].
Proof.
  intros Hbr.
  assert (Hbr' : brackets t pre (KNum tp, (Some wp, Some hp)) (KNum tn, (Some wn, Some hn))).
  { destruct Hbr as [Hbr|(Hinc & Hprev & Hnext)]; [done|].
    apply (increasing_brackets _ _ _ post); [done| |by cbn; rewrite Hnext].
    destruct Hprev as [->|Hprev]; [by left|right]. cbn. by rewrite Hprev. }
  clear Hbr. split_and!.
  - unfold getInterpolatedSize. rewrite scan_brackets by done.
    rewrite bind_ok. apply interpolate_formula.
  - intros w h H. unfold sizeAt_formula in H.
    apply bind_inv in H as (a & _ & H). apply bind_inv in H as (b & _ & H).
    apply bind_inv in H as (mult & _ & H). apply bind_inv in H as (w' & Hw & H).
    apply bind_inv in H as (h' & Hh & H). injection H as <- <-.
    split; eapply lerp_dim_ge_1; eassumption.
  - by vm_compute.
  - eexists. split; [by vm_compute|]. by vm_compute.
  - by vm_compute.
  - eexists. split; [by vm_compute|]. by vm_compute.
  - by vm_compute.
Qed.

Lemma C1_witness :
  getInterpolatedSize example_table (NFloat (float_of_Z 5))
  = sizeAt_formula (NFloat (float_of_Z 5)) (NInt 0) (NInt 10) (100, 100) (200, 50).
Proof.
  refine (proj1 (C1_sizeAt_interpolates [] [] (NFloat (float_of_Z 5))
                   (NInt 0) (NInt 10) 100 100 200 50 _)).
  right. split_and!; [reflexivity | by left | reflexivity].
Defined.






(** ** The claims about the image cache and the list file *)





(** ** Text replacement and the command lines: proofs *)

Section Commands.

Implicit Types (s old new video : string).

Lemma replace_go_cons_miss old new c s :
  String.prefix old (String c s) = false →
  replace_go old new None 0 (String c s) = String c (replace_go old new None 0 s).
Proof. intros H. cbn [replace_go]. by rewrite H. Qed.

Lemma replace_go_cons_hit old new c s :
  String.prefix old (String c s) = true →
  replace_go old new None 0 (String c s)
  = new +:+ replace_go old new None (String.length old - 1) s.
Proof. intros H. cbn [replace_go]. by rewrite H. Qed.

Lemma replace_absent old new s :
  contains old s = false → replace old new s = s.
Proof.
  unfold replace. induction s as [|c s IH]; [done|].
  cbn [contains]. intros [Hp Hc]%orb_false_elim.
  rewrite replace_go_cons_miss by done. by rewrite IH.
Qed.

Lemma prefix_append new s : String.prefix new (new +:+ s) = true.
Proof.
  induction new as [|c new IH]; [by destruct s|].
  rewrite append_cons. cbn. by destruct (ascii_dec c c).
Qed.

Lemma contains_replaced old new s :
  old ≠ EmptyString →
  contains old s = true → contains new (replace old new s) = true.
Proof.
  intros Hold. unfold replace. induction s as [|c s IH].
  - by destruct old.
  - cbn [contains]. destruct (String.prefix old (String c s)) eqn:Hp.
    + intros _. rewrite replace_go_cons_hit by done.
      destruct (new +:+ _) eqn:Hn; cbn [contains]; rewrite <- Hn;
        by rewrite prefix_append.
    + cbn [orb]. intros Hc. rewrite replace_go_cons_miss by done.
      cbn [contains]. rewrite IH by done. apply orb_true_r.
Qed.

(** every replacement of [".mp4"] by ["_resized.webm"] makes the text longer *)
Lemma getOutput_length video :
  (∀ k, String.length video
        ≤ String.length (replace_go ".mp4" "_resized.webm" None k video) + k)%nat ∧
  (contains ".mp4" video = true →
   String.length video < String.length (getOutput video))%nat.
Proof.
  unfold getOutput, replace. induction video as [|c s [IHk IHc]].
  - split; [intros k; cbn; lia | done].
  - assert (H0 : if String.prefix ".mp4" (String c s)
                 then (String.length (String c s)
                       < String.length (replace_go ".mp4" "_resized.webm" None 0 (String c s)))%nat
                 else replace_go ".mp4" "_resized.webm" None 0 (String c s)
                      = String c (replace_go ".mp4" "_resized.webm" None 0 s)).
    { destruct (String.prefix ".mp4" (String c s)) eqn:Hp.
      - rewrite replace_go_cons_hit by done. rewrite append_length.
        specialize (IHk 3%nat). cbn in IHk |- *. lia.
      - by apply replace_go_cons_miss. }
    split.
    + intros [|k].
      * destruct (String.prefix ".mp4" (String c s)); [lia|].
        rewrite H0. specialize (IHk 0%nat). cbn [String.length]. lia.
      * cbn [replace_go String.length]. specialize (IHk k). lia.
    + cbn [contains]. destruct (String.prefix ".mp4" (String c s)); [done|].
      cbn [orb]. intros Hc. rewrite H0. cbn [String.length]. specialize (IHc Hc). lia.
Qed.

Lemma getOutput_changes video :
  contains ".mp4" video = true → getOutput video ≠ video.
Proof.
  intros Hc Heq. pose proof (proj2 (getOutput_length video) Hc) as Hlt.
  rewrite Heq in Hlt. lia.
Qed.

End Commands.

(** ** The claims about the command lines *)

(** C10.  [getOutput] returns a path without [".mp4"] in it unchanged, so
    the last argument of the mux command of [setAudio], the file [ffmpeg]
    writes, is the input path itself; a path with [".mp4"] in it is changed
    and then contains ["_resized.webm"]. *)
Theorem C10_getOutput_unchanged_without_mp4 video :
  (contains ".mp4" video = false →
   getOutput video = video ∧
   ∀ fs, issued (snd (setAudio video fs))
         = issued fs ++
           ["ffmpeg -hide_banner -loglevel error -i temp/out.webm -i temp/audio.wav -map 0:V:0 -map 1:a:0 -c:v copy -c:a libopus -b:a 160k -f webm "
              +:+ video]) ∧
  (contains ".mp4" video = true →
   getOutput video ≠ video ∧ contains "_resized.webm" (getOutput video) = true) ∧
  getOutput "clip.webm" = "clip.webm" ∧
  getOutput "clip.mp4" = "clip_resized.webm".
Proof.
  split_and!.
  - intros Hc. assert (Hout : getOutput video = video) by by apply replace_absent.
    split; [done|]. intros fs. cbn. unfold setAudio_cmd. by rewrite Hout.
  - intros Hc. split; [by apply getOutput_changes | by apply contains_replaced].
  - reflexivity.
  - reflexivity.
Qed.

Lemma C10_witness : getOutput "clip.webm" = "clip.webm".
Proof.
  apply (proj1 (C10_getOutput_unchanged_without_mp4 "clip.webm")). reflexivity.
Defined.

(** C7.  The two encoders do not issue the same command: for every frame
    rate and frame index the command of [createWebms] asks for the pixel
    format [yuva420p], which keeps the alpha channel, and the command of
    [processSingleWebm], which [createWebmsFast] runs, names no pixel format.
    This is the code at the input of the transparent mode with its default
    frame rate. *)
Theorem C7_encode_commands_differ :
  (∀ fps i, createWebms_cmd fps i ≠ processSingleWebm_cmd fps i) ∧
  issued (snd (createWebms (NInt 30) 0 false fresh))
  = ["ffmpeg -hide_banner -loglevel error -framerate 30 -f image2 -i temp/frame-0.png -c:v libvpx-vp9 -pix_fmt yuva420p temp/frame-0.webm"] ∧
  issued (snd (createWebmsFast id (NInt 30) 0 false fresh))
  = ["ffmpeg -hide_banner -loglevel error -framerate 30 -f image2 -i temp/frame-0.png -c:v libvpx-vp9 temp/frame-0.webm"] ∧
  contains "-pix_fmt yuva420p" (createWebms_cmd (NInt 30) 0) = true ∧
  contains "-pix_fmt" (processSingleWebm_cmd (NInt 30) 0) = false.
Proof.
  split_and!; [|by vm_compute..].
  intros fps i H. unfold createWebms_cmd, processSingleWebm_cmd in H.
  cbv zeta in H.
  do 4 apply append_inj_l in H.
  change (".png -c:v libvpx-vp9 -pix_fmt yuva420p " +:+ ("temp/frame-" +:+ pretty i) +:+ ".webm")
    with (".png -c:v libvpx-vp9 " +:+ "-pix_fmt yuva420p " +:+ ("temp/frame-" +:+ pretty i) +:+ ".webm") in H.
  apply append_inj_l in H. discriminate H.
Qed.

(** ** The command line: proofs *)

Section CommandLine.

Implicit Types (s : string) (l : list ascii).

Lemma list_ascii_append s1 s2 :
  String.list_ascii_of_string (s1 +:+ s2)
  = String.list_ascii_of_string s1 ++ String.list_ascii_of_string s2.
Proof. induction s1 as [|c s1 IH]; [done|]. rewrite append_cons. cbn. by rewrite IH. Qed.

(** [ascii(s)] ends with the quote it begins with *)
Lemma py_ascii_last s :
  ∃ q, (q = squote ∨ q = dquote) ∧
       last (String.list_ascii_of_string (py_ascii s)) = Some q.
Proof.
  unfold py_ascii.
  set (q := if has_char squote s && negb (has_char dquote s) then dquote else squote).
  exists q. split; [subst q; destruct (_ && _); auto|].
  cbn [String.list_ascii_of_string]. rewrite list_ascii_append. cbn.
  change (q :: ?l ++ [q]) with ((q :: l) ++ [q]). apply last_snoc.
Qed.

Lemma at_end_last l c : at_end (c :: l) = true → last (c :: l) = Some (ascii_of_N 10).
Proof.
  destruct l as [|? ?]; [|done]. cbn. by intros ->%Ascii.eqb_eq.
Qed.

(** a match of the pattern runs to the end of the text, or to its last
    line feed *)
Lemma rmatch_video_suffix_last l :
  rmatch video_suffix l (λ _, true) = true → ∃ c, last l = Some c ∧ suffix_end c.
Proof.
  unfold video_suffix. cbn [rmatch].
  destruct l as [|c0 l]; [done|]. intros [_ H]%andb_prop.
  apply orb_prop in H as [H|H].
  - destruct l as [|c1 [|c2 [|c3 l]]]; cbn [rmatch] in H;
      try (rewrite ?andb_false_r in H; discriminate H).
    apply andb_prop in H as [_ H]. apply andb_prop in H as [_ H].
    apply andb_prop in H as [H3 H]. apply andb_prop in H as [He _].
    apply Ascii.eqb_eq in H3 as <-.
    destruct l as [|c4 l].
    + exists "4"%char. split; [done|]. by left.
    + exists (ascii_of_N 10). split; [|by right; right].
      rewrite <- (at_end_last _ _ He). done.
  - destruct l as [|c1 [|c2 [|c3 [|c4 l]]]]; cbn [rmatch] in H;
      try (rewrite ?andb_false_r in H; discriminate H).
    apply andb_prop in H as [_ H]. apply andb_prop in H as [_ H].
    apply andb_prop in H as [_ H]. apply andb_prop in H as [H4 H].
    apply andb_prop in H as [He _]. apply Ascii.eqb_eq in H4 as <-.
    destruct l as [|c5 l].
    + exists "m"%char. split; [done|]. right. by left.
    + exists (ascii_of_N 10). split; [|by right; right].
      rewrite <- (at_end_last _ _ He). done.
Qed.

Lemma search_from_last l :
  search_from video_suffix l = true → ∃ c, last l = Some c ∧ suffix_end c.
Proof.
  induction l as [|c l IH].
  - cbn [search_from]. rewrite orb_false_r. apply rmatch_video_suffix_last.
  - cbn [search_from]. intros [H|H]%orb_prop; [by apply rmatch_video_suffix_last|].
    destruct (IH H) as (x & Hx & Hend). exists x. split; [|done].
    destruct l; [done|]. done.
Qed.

Lemma re_search_py_ascii s : re_search video_suffix (py_ascii s) = false.
Proof.
  destruct (re_search video_suffix (py_ascii s)) eqn:H; [|done].
  apply search_from_last in H as (c & Hc & Hend).
  destruct (py_ascii_last s) as (q & Hq & Hlast).
  rewrite Hlast in Hc. injection Hc as <-.
  destruct Hq as [-> | ->], Hend as [H|[H|H]]; discriminate H.
Qed.

End CommandLine.

(** C9.  With the input path given and no [-t] flag, [main] never gets past
    the test of the file name: [type=ascii] has put the path inside quotes,
    the pattern [\.(mp4|webm)$] asks for a last character [4] or [m] (or a
    last line feed), and the run ends with "No valid input file." with
    nothing touched.  The path as typed would have matched. *)
Theorem C9_video_mode_always_rejects_input w path slow fs :
  re_search video_suffix (py_ascii path) = false ∧
  main w (Cli (Some path) slow None) fs = (sys_exit "No valid input file.", fs) ∧
  py_ascii "video.mp4" = String squote ("video.mp4" +:+ String squote EmptyString) ∧
  re_search video_suffix "video.mp4" = true ∧
  re_search video_suffix "video.webm" = true.
Proof.
  split_and!; [apply re_search_py_ascii| |done..].
  unfold main. cbn [cli_input cli_transparent cli_slow fmap option_fmap option_map].
  pose proof (re_search_py_ascii path) as Hre.
  unfold py_ascii in *. cbn [negb andb]. by rewrite Hre.
Qed.

(** ** A run and its staging directory: proofs *)

Section Run.

Implicit Types (fs : fsys) (w : world).

Lemma keeps_temp_lift {A : Type} (o : outcome A) : keeps_temp (lift o).
Proof. done. Qed.

Lemma keeps_temp_ret {A : Type} (a : A) : keeps_temp (mret a : M A).
Proof. done. Qed.

Lemma keeps_temp_get : keeps_temp get.
Proof. done. Qed.













End Run.

(** ** The claim about the staging directory *)




(** ** Reading the instructions: proofs *)

Section Instructions.

Implicit Types (kf size time : json) (info : table) (width height duration : num).

Lemma isdigit_minus s : isdigit (replace_first "." EmptyString ("-" +:+ s)) = false.
Proof. reflexivity. Qed.









End Instructions.

(** ** The claim about the instructions *)


(** a keyframe without a size ends the run with an uncaught [KeyError]: the
    test before [kf["size"]] asks for ["time"] a second time *)
Lemma readInstructions_missing_size :
  readInstructions (NInt 640) (NInt 480) (NFloat (float_of_Z 10))
    (Doc (JObj [("keyframes", JList [JObj [("time", JNum (NInt 0))]])]))
  = Exc KeyError.
Proof. by vm_compute. Qed.



(** ** Further properties of the interpolation table *)

Section InterpolationMore.

Implicit Types (info pre post : table) (t : num).

Lemma blend_ge_1 p mult d v : blend p mult d = Ok v → 1 ≤ v.
Proof.
  destruct p as [p|]; [|done]. unfold blend. intros H.
  apply bind_inv in H as (x & _ & H). apply bind_inv in H as (y & _ & H).
  apply bind_inv in H as (z & _ & H). injection H as <-. lia.
Qed.

Lemma getInterpolatedSize_brackets pre prev next post t :
  brackets t pre prev next →
  getInterpolatedSize (pre ++ prev :: next :: post) t = interpolate prev next t.
Proof.
  intros Hbr. unfold getInterpolatedSize.
  by rewrite (scan_brackets _ _ _ _ _ Hbr), bind_ok.
Qed.

(** X1.  Whatever the table and the query time, a size that
    [getInterpolatedSize] returns is at least 1 in both dimensions. *)
Theorem getInterpolatedSize_at_least_1 info t w h :
  getInterpolatedSize info t = Ok (w, h) → 1 ≤ w ∧ 1 ≤ h.
Proof.
  unfold getInterpolatedSize. intros H.
  apply bind_inv in H as ([prev next] & _ & H).
  destruct next as [n|]; [|done]. destruct prev as [p|]; [|done].
  unfold interpolate in H.
  apply bind_inv in H as (a & _ & H). apply bind_inv in H as (b & _ & H).
  apply bind_inv in H as (mult & _ & H). apply bind_inv in H as (d0 & _ & H).
  apply bind_inv in H as (d1 & _ & H). apply bind_inv in H as (w' & Hw & H).
  apply bind_inv in H as (h' & Hh & H). injection H as <- <-.
  split; eapply blend_ge_1; eassumption.
Qed.

Lemma getInterpolatedSize_at_least_1_witness : 1 ≤ 150 ∧ 1 ≤ 75.
Proof.
  apply (getInterpolatedSize_at_least_1 example_table (NFloat (float_of_Z 5))).
  by vm_compute.
Defined.

(** X2.  There is no lower end: for every query time that is not beyond the
    second keyframe, also one before the first keyframe, the size is the
    line through the first two keyframes, and the keyframes after them play
    no part. *)
Theorem getInterpolatedSize_before_first t t0 t1 w0 h0 w1 h1 post :
  gt t t1 = false →
  getInterpolatedSize
    ((KNum t0, (Some w0, Some h0)) :: (KNum t1, (Some w1, Some h1)) :: post) t
  = sizeAt_formula t t0 t1 (w0, h0) (w1, h1).
Proof.
  intros Hgt. rewrite <- interpolate_formula.
  apply (getInterpolatedSize_brackets [] (KNum t0, (Some w0, Some h0))
           (KNum t1, (Some w1, Some h1)) post t).
  split; [constructor|]. cbn [fst key_gt]. by rewrite Hgt.
Qed.

Lemma getInterpolatedSize_before_first_witness :
  getInterpolatedSize example_table (NFloat (float_of_Z (-5))) = Ok (50, 125).
Proof.
  etransitivity.
  - exact (getInterpolatedSize_before_first (NFloat (float_of_Z (-5))) (NInt 0)
             (NInt 10) 100 100 200 50 [] eq_refl).
  - by vm_compute.
Defined.

(** X3.  A time given as a string of digits passes the test of
    [readInstructions] and is stored as a string key; a table whose second
    key is a string stops every query with an uncaught [TypeError], at the
    first comparison. *)
Theorem string_time_breaks_query width height duration info fields s size sz :
  assoc "time" fields = Some (JStr s) →
  is_str "end" (JStr s) = false →
  isdigit (replace_first "." EmptyString s) = true →
  assoc "size" fields = Some size →
  resolve_size width height size = Ok sz →
  readKeyframe width height duration info (JObj fields)
  = Ok (table_set info (KStr s) sz) ∧
  ∀ e0 v post t, getInterpolatedSize (e0 :: (KStr s, v) :: post) t = Exc TypeError.
Proof.
  intros Ht Hend Hok Hsize Hres. split.
  - unfold readKeyframe. cbn [py_in py_getitem]. rewrite Ht, Hsize.
    rewrite bool_decide_eq_true_2 by eauto. rewrite !bind_ok. cbn [negb].
    rewrite Hend. unfold time_ok. cbn [time_text]. rewrite Hok. cbn [negb].
    by rewrite Hres.
  - intros [k0 v0] v post t. reflexivity.
Qed.

Lemma string_time_breaks_query_witness :
  readKeyframe (NInt 640) (NInt 480) (NFloat (float_of_Z 10)) example_table
    (JObj [("time", JStr "5"); ("size", JObj [("width", JNum (NInt 1))])])
  = Ok (example_table ++ [(KStr "5", (Some 1, None))]).
Proof.
  refine (proj1 (string_time_breaks_query (NInt 640) (NInt 480) (NFloat (float_of_Z 10))
            example_table
            [("time", JStr "5"); ("size", JObj [("width", JNum (NInt 1))])]
            "5" (JObj [("width", JNum (NInt 1))]) (Some 1, None)
            eq_refl eq_refl eq_refl eq_refl eq_refl)).
Defined.

(** X4.  A keyframe that was stored with a dimension unset stops the query
    that reaches it: when [prev] and [next] bracket [t] and one of their
    four dimensions is unset, [getInterpolatedSize] ends with an uncaught
    [TypeError]. *)
Theorem unset_dimension_breaks_query pre post t tp tn sp sn a b mult :
  brackets t pre (KNum tp, sp) (KNum tn, sn) →
  sub t tp = Ok a → sub tn tp = Ok b → truediv a b = Ok mult →
  fst sp = None ∨ snd sp = None ∨ fst sn = None ∨ snd sn = None →
  getInterpolatedSize (pre ++ (KNum tp, sp) :: (KNum tn, sn) :: post) t = Exc TypeError.
Proof.
  intros Hbr Ha Hb Hm Hnone. rewrite (getInterpolatedSize_brackets _ _ _ _ _ Hbr).
  unfold interpolate. cbn [fst snd key_sub]. rewrite Ha, bind_ok, Hb, bind_ok, Hm, bind_ok.
  destruct sp as [[wp|] [hp|]], sn as [[wn|] [hn|]]; cbn in Hnone |- *;
    try reflexivity; by destruct Hnone as [?|[?|[?|?]]].
Qed.

Lemma unset_dimension_breaks_query_witness :
  getInterpolatedSize half_table (NFloat (float_of_Z 5)) = Exc TypeError.
Proof.
  refine (unset_dimension_breaks_query [] [] (NFloat (float_of_Z 5)) (NInt 0) (NInt 10)
            (Some 100, None) (Some 200, Some 50) _ _ _ _ eq_refl eq_refl eq_refl _).
  - split; [constructor | reflexivity].
  - right. by left.
Defined.

Lemma of_int_exc z e : of_int z = Exc e → e = OverflowError.
Proof. unfold of_int. destruct (binary_normalize _ _ _ _ _); congruence. Qed.

Lemma to_float_exc n e : to_float n = Exc e → e = OverflowError.
Proof. destruct n; cbn; [apply of_int_exc|done]. Qed.

Lemma float_op_exc (op : float → float → float) a b e :
  (x ← to_float a; y ← to_float b; Ok (NFloat (op x y))) = Exc e → e = OverflowError.
Proof.
  destruct (to_float a) as [x|e0] eqn:Ha.
  - rewrite bind_ok. destruct (to_float b) as [y|e1] eqn:Hb; [done|].
    rewrite bind_exc. intros [= <-]. by apply to_float_exc in Hb.
  - rewrite bind_exc. intros [= <-]. by apply to_float_exc in Ha.
Qed.

Lemma sub_exc a b e : sub a b = Exc e → e = OverflowError.
Proof. destruct a, b; try done; apply float_op_exc. Qed.

Lemma add_exc a b e : add a b = Exc e → e = OverflowError.
Proof. destruct a, b; try done; apply float_op_exc. Qed.

Lemma mul_exc a b e : mul a b = Exc e → e = OverflowError.
Proof. destruct a, b; try done; apply float_op_exc. Qed.

Lemma float_div_exc a b e :
  (x ← to_float a; y ← to_float b;
   if is_zero y then Exc ZeroDivisionError else Ok (NFloat (SFdiv prec emax x y))) = Exc e →
  e = ZeroDivisionError ∨ e = OverflowError.
Proof.
  destruct (to_float a) as [x|e0] eqn:Ha.
  - rewrite bind_ok. destruct (to_float b) as [y|e1] eqn:Hb.
    + rewrite bind_ok. destruct (is_zero y); [|done]. intros [= <-]. by left.
    + rewrite bind_exc. intros [= <-]. right. by apply to_float_exc in Hb.
  - rewrite bind_exc. intros [= <-]. right. by apply to_float_exc in Ha.
Qed.

Lemma truediv_exc a b e :
  truediv a b = Exc e → e = ZeroDivisionError ∨ e = OverflowError.
Proof.
  destruct a as [x|x], b as [y|y]; try apply float_div_exc.
  unfold truediv. destruct (y =? 0); [intros [= <-]; by left|].
  destruct (SFdiv _ _ _ _); try done. intros [= <-]. by right.
Qed.

Lemma int_exc n e : int n = Exc e → e = ValueError ∨ e = OverflowError.
Proof.
  destruct n as [z|[]]; cbn; try done; intros [= <-]; [by right|by left].
Qed.

Lemma key_gt_exc t k e : key_gt t k = Exc e → e = TypeError.
Proof. destruct k; cbn; congruence. Qed.

Lemma key_sub_exc a b e : key_sub a b = Exc e → e = TypeError ∨ e = OverflowError.
Proof.
  destruct a, b; cbn; try (intros [= <-]; by left).
  intros H. right. by apply sub_exc in H.
Qed.

Lemma dim_sub_exc a b e : dim_sub a b = Exc e → e = TypeError.
Proof. destruct a, b; cbn; congruence. Qed.

Lemma blend_exc p mult d e :
  blend p mult d = Exc e → e = TypeError ∨ e = OverflowError ∨ e = ValueError.
Proof.
  destruct p as [p|]; cbn [blend]; [|intros [= <-]; by left].
  destruct (mul mult (NInt d)) as [m|e0] eqn:Hm.
  2:{ rewrite bind_exc. intros [= <-]. apply mul_exc in Hm. auto. }
  rewrite bind_ok. destruct (add (NInt p) m) as [x|e0] eqn:Hx.
  2:{ rewrite bind_exc. intros [= <-]. apply add_exc in Hx. auto. }
  rewrite bind_ok. destruct (int x) as [v|e0] eqn:Hv; [done|].
  rewrite bind_exc. intros [= <-]. apply int_exc in Hv as [->| ->]; auto.
Qed.

Lemma scan_exc info t :
  ∀ prev next e, scan info t prev next = Exc e → e = TypeError.
Proof.
  induction info as [|[k v] info IH]; intros prev next e; [done|]. cbn [scan].
  destruct prev as [p|]; [|apply IH].
  destruct (key_gt t _) as [b|e0] eqn:Hb.
  - rewrite bind_ok. destruct b; apply IH.
  - rewrite bind_exc. intros [= <-]. by apply key_gt_exc in Hb.
Qed.

Lemma interpolate_exc prev next t e :
  interpolate prev next t = Exc e →
  e = TypeError ∨ e = ZeroDivisionError ∨ e = OverflowError ∨ e = ValueError.
Proof.
  unfold interpolate.
  destruct (key_sub (KNum t) (fst prev)) as [a|e0] eqn:Ha.
  2:{ rewrite bind_exc. intros [= <-]. apply key_sub_exc in Ha as [->| ->]; auto. }
  rewrite bind_ok. destruct (key_sub (fst next) (fst prev)) as [b|e0] eqn:Hb.
  2:{ rewrite bind_exc. intros [= <-]. apply key_sub_exc in Hb as [->| ->]; auto. }
  rewrite bind_ok. destruct (truediv a b) as [mult|e0] eqn:Hm.
  2:{ rewrite bind_exc. intros [= <-]. apply truediv_exc in Hm as [->| ->]; auto. }
  rewrite bind_ok. destruct (dim_sub (fst (snd next)) (fst (snd prev))) as [d0|e0] eqn:Hd0.
  2:{ rewrite bind_exc. intros [= <-]. apply dim_sub_exc in Hd0 as ->. auto. }
  rewrite bind_ok. destruct (dim_sub (snd (snd next)) (snd (snd prev))) as [d1|e0] eqn:Hd1.
  2:{ rewrite bind_exc. intros [= <-]. apply dim_sub_exc in Hd1 as ->. auto. }
  rewrite bind_ok. destruct (blend (fst (snd prev)) mult d0) as [w|e0] eqn:Hw.
  2:{ rewrite bind_exc. intros [= <-]. apply blend_exc in Hw as [->|[->| ->]]; auto. }
  rewrite bind_ok. destruct (blend (snd (snd prev)) mult d1) as [h|e0] eqn:Hh; [done|].
  rewrite bind_exc. intros [= <-]. apply blend_exc in Hh as [->|[->| ->]]; auto.
Qed.

Lemma getInterpolatedSize_failure info t e :
  getInterpolatedSize info t = Exc e → e ∈ getInterpolatedSize_failures.
Proof.
  unfold getInterpolatedSize, getInterpolatedSize_failures.
  destruct (scan info t None None) as [[prev next]|e0] eqn:Hscan.
  2:{ rewrite bind_exc. intros [= <-]. apply scan_exc in Hscan as ->. set_solver. }
  rewrite bind_ok. destruct next as [n|]; [|intros [= <-]; set_solver].
  destruct prev as [p|]; [|intros [= <-]; set_solver].
  intros [->|[->|[->| ->]]]%interpolate_exc; set_solver.
Qed.

(** X5.  A query ends without a size in exactly five ways: the exit
    "Could not interpolate", or an uncaught [TypeError],
    [ZeroDivisionError], [OverflowError] or [ValueError]. *)
Theorem getInterpolatedSize_failure_modes e :
  (∃ info t, getInterpolatedSize info t = Exc e) ↔ e ∈ getInterpolatedSize_failures.
Proof.
  split.
  - intros (info & t & H). by apply getInterpolatedSize_failure in H.
  - unfold getInterpolatedSize_failures. rewrite !elem_of_cons, elem_of_nil.
    intros [->|[->|[->|[->|[->|[]]]]]].
    + exists example_table, (NFloat (float_of_Z 11)). by vm_compute.
    + exists half_table, (NFloat (float_of_Z 5)). by vm_compute.
    + exists close_table, (NFloat (float_of_Z 0)). by vm_compute.
    + exists far_table, (NFloat (float_of_Z 5)). by vm_compute.
    + exists example_table, (NFloat S754_nan). by vm_compute.
Qed.

Lemma getInterpolatedSize_failure_modes_witness :
  ZeroDivisionError ∈ getInterpolatedSize_failures.
Proof.
  apply (proj1 (getInterpolatedSize_failure_modes ZeroDivisionError)).
  exists close_table, (NFloat (float_of_Z 0)). by vm_compute.
Defined.

End InterpolationMore.

(** ** Further properties of [readInstructions] *)

Section InstructionsMore.

Implicit Types (kf size time : json) (info : table) (width height duration : num).





(** what a round of the loop that goes through has done *)
Lemma readKeyframe_ok width height duration info kf info' :
  readKeyframe width height duration info kf = Ok info' →
  ∃ t size sz k,
    py_getitem kf "time" = Ok t ∧
    time_ok (if is_str "end" t then JNum duration else t) = true ∧
    key_of (if is_str "end" t then JNum duration else t) = Ok k ∧
    py_getitem kf "size" = Ok size ∧
    resolve_size width height size = Ok sz ∧
    info' = table_set info k sz.
Proof.
  unfold readKeyframe. intros H.
  apply bind_inv in H as (b & Hb & H). destruct b; [|done]. cbn [negb] in H.
  apply bind_inv in H as (t & Ht & H).
  destruct (time_ok (if is_str "end" t then JNum duration else t)) eqn:Hok; [|done].
  cbn [negb] in H. rewrite Hb, bind_ok in H. cbn [negb] in H.
  apply bind_inv in H as (size & Hsize & H).
  apply bind_inv in H as (sz & Hsz & H).
  apply bind_inv in H as (k & Hk & H). injection H as <-.
  exists t, size, sz, k. split_and!; try done.
  by destruct (resolve_size width height size); [injection Hsz as ->|].
Qed.







Lemma readKeyframes_app width height duration pre :
  ∀ info info' rest,
    readKeyframes width height duration info pre = Ok info' →
    readKeyframes width height duration info (pre ++ rest)
    = readKeyframes width height duration info' rest.
Proof.
  induction pre as [|kf pre IH]; intros info info' rest; cbn [readKeyframes app].
  - by intros [= ->].
  - intros H. apply bind_inv in H as (info1 & -> & H). rewrite bind_ok. by apply IH.
Qed.

(** X7.  A keyframe object with a time that passes the test and with no
    ["size"] entry ends the reading with an uncaught [KeyError], wherever it
    stands in the list and whatever follows it, once the keyframes before it
    have gone through. *)
Theorem keyframe_without_size_is_KeyError width height duration info info' pre
    fields time rest :
  readKeyframes width height duration info pre = Ok info' →
  assoc "time" fields = Some time →
  time_ok (if is_str "end" time then JNum duration else time) = true →
  assoc "size" fields = None →
  readKeyframes width height duration info (pre ++ JObj fields :: rest) = Exc KeyError.
Proof.
  intros Hpre Ht Hok Hsize. rewrite (readKeyframes_app _ _ _ _ _ _ _ Hpre).
  cbn [readKeyframes]. unfold readKeyframe. cbn [py_in py_getitem].
  rewrite Ht, Hsize. rewrite bool_decide_eq_true_2 by eauto.
  rewrite !bind_ok. cbn [negb]. rewrite Hok. cbn [negb]. reflexivity.
Qed.

Lemma keyframe_without_size_is_KeyError_witness :
  readKeyframes (NInt 640) (NInt 480) (NFloat (float_of_Z 10)) []
    ([JObj [("time", JNum (NInt 0)); ("size", JObj [("scale", JNum (NInt 1))])]]
       ++ JObj [("time", JStr "end")] :: [JNull])
  = Exc KeyError.
Proof.
  apply (keyframe_without_size_is_KeyError (NInt 640) (NInt 480) (NFloat (float_of_Z 10))
           [] [(KNum (NInt 0), (Some 640, Some 480))]
           [JObj [("time", JNum (NInt 0)); ("size", JObj [("scale", JNum (NInt 1))])]]
           [("time", JStr "end")] (JStr "end") [JNull]).
  - by vm_compute.
  - reflexivity.
  - by vm_compute.
  - reflexivity.
Defined.

Lemma all_chars_impl (p q : ascii → bool) s :
  (∀ c, p c = true → q c = true) → all_chars p s = true → all_chars q s = true.
Proof.
  intros Hpq. induction s as [|c s IH]; [done|]. cbn [all_chars].
  intros [Hc Hs]%andb_true_iff. by rewrite (Hpq c Hc), IH.
Qed.

Lemma pretty_N_char_digit x : is_ascii_digit (pretty_N_char x) = true.
Proof. unfold pretty_N_char. by repeat case_match. Qed.

Lemma pretty_N_go_digits x :
  ∀ s, all_chars is_ascii_digit s = true →
       all_chars is_ascii_digit (pretty_N_go x s) = true.
Proof.
  induction (N.lt_wf_0 x) as [x _ IH]. intros s Hs.
  destruct (decide (x = 0)%N) as [->|Hx]; [by rewrite pretty_N_go_0|].
  rewrite pretty_N_go_step by lia. apply IH.
  - apply N.div_lt; lia.
  - cbn [all_chars]. by rewrite pretty_N_char_digit, Hs.
Qed.

Lemma pretty_N_go_nonempty x s : s ≠ EmptyString → pretty_N_go x s ≠ EmptyString.
Proof.
  revert s. induction (N.lt_wf_0 x) as [x _ IH]. intros s Hs.
  destruct (decide (x = 0)%N) as [->|Hx]; [by rewrite pretty_N_go_0|].
  rewrite pretty_N_go_step by lia. apply IH; [apply N.div_lt; lia|done].
Qed.

Lemma pretty_N_digits (x : N) :
  all_chars is_ascii_digit (pretty x) = true ∧ pretty x ≠ EmptyString.
Proof.
  unfold pretty, pretty_N. destruct (decide (x = 0)%N) as [->|Hx]; [done|].
  split; [by apply pretty_N_go_digits|].
  rewrite pretty_N_go_step by lia. by apply pretty_N_go_nonempty.
Qed.

Lemma replace_first_digits s :
  all_chars is_ascii_digit s = true → replace_first "." EmptyString s = s.
Proof.
  unfold replace_first. induction s as [|c s IH]; [done|]. cbn [all_chars].
  intros [Hc Hs]%andb_true_iff. cbn [replace_go fmap option_fmap option_map].
  replace (String.prefix "." (String c s)) with false.
  - by rewrite IH.
  - cbn [String.prefix]. by destruct (Ascii.ascii_dec "." c) as [<-|].
Qed.

Lemma isdigit_digits s :
  all_chars is_ascii_digit s = true → s ≠ EmptyString →
  isdigit (replace_first "." EmptyString s) = true.
Proof.
  intros Hs Hne. rewrite replace_first_digits by done.
  destruct s as [|c s]; [done|]. unfold isdigit.
  apply (all_chars_impl is_ascii_digit); [|done].
  intros c' Hc'. unfold is_digit_char. by rewrite Hc'.
Qed.

(** X8.  A time that is an integer passes the test of [readInstructions]
    exactly when it is not negative, however large it is. *)
Theorem time_ok_int (z : Z) : time_ok (JNum (NInt z)) = (0 <=? z).
Proof.
  unfold time_ok, time_text, str. destruct z as [|p|p].
  - reflexivity.
  - change (pretty (Z.pos p)) with (pretty (N.pos p)).
    destruct (pretty_N_digits (N.pos p)) as [Hd Hne]. by rewrite isdigit_digits.
  - change (pretty (Z.neg p)) with ("-" +:+ pretty (N.pos p)). apply isdigit_minus.
Qed.

Lemma table_set_cases (info : list (key * kfsize)) k v :
  (Forall (λ e, key_eqb (fst e) k = false) info ∧ table_set info k v = info ++ [(k, v)]) ∨
  (∃ i k' v', info !! i = Some (k', v') ∧ key_eqb k' k = true ∧
              Forall (λ e, key_eqb (fst e) k = false) (take i info) ∧
              table_set info k v = <[i := (k', v)]> info).
Proof.
  induction info as [|[k0 v0] info IH]; cbn [table_set].
  - left. by split.
  - destruct (key_eqb k0 k) eqn:Hk0.
    + right. exists 0%nat, k0, v0. by split_and!.
    + destruct IH as [[Hnone ->]|(i & k' & v' & Hi & Hk' & Hbefore & ->)].
      * left. split; [|done]. by constructor.
      * right. exists (S i), k', v'. split_and!; try done.
        cbn [take]. by constructor.
Qed.

(** X9.  A keyframe that goes through either adds an entry at the end of
    the table, when no entry has an equal time, or puts its size in the
    place of the size of the first entry with an equal time: that entry
    keeps its position and its key, and the table does not grow. *)
Theorem later_keyframe_replaces width height duration (info info' : list (key * kfsize)) kf :
  readKeyframe width height duration info kf = Ok info' →
  ∃ t k size sz,
    py_getitem kf "time" = Ok t ∧
    key_of (if is_str "end" t then JNum duration else t) = Ok k ∧
    py_getitem kf "size" = Ok size ∧
    resolve_size width height size = Ok sz ∧
    ((Forall (λ e, key_eqb (fst e) k = false) info ∧ info' = info ++ [(k, sz)]) ∨
     (∃ i k' v', info !! i = Some (k', v') ∧ key_eqb k' k = true ∧
                 Forall (λ e, key_eqb (fst e) k = false) (take i info) ∧
                 info' = <[i := (k', sz)]> info)).
Proof.
  intros (t & size & sz & k & Ht & _ & Hk & Hsize & Hsz & ->)%readKeyframe_ok.
  exists t, k, size, sz. split_and!; try done. apply table_set_cases.
Qed.

Lemma later_keyframe_replaces_witness :
  ∃ t k size sz,
    py_getitem (JObj [("time", JNum (NFloat (float_of_Z 10)));
                      ("size", JObj [("width", JNum (NInt 1))])]) "time" = Ok t ∧
    key_of (if is_str "end" t then JNum (NInt 20) else t) = Ok k ∧
    py_getitem (JObj [("time", JNum (NFloat (float_of_Z 10)));
                      ("size", JObj [("width", JNum (NInt 1))])]) "size" = Ok size ∧
    resolve_size (NInt 640) (NInt 480) size = Ok sz ∧
    ((Forall (λ e, key_eqb (fst e) k = false) example_table ∧
      [(KNum (NInt 0), (Some 100, Some 100)); (KNum (NInt 10), (Some 1, None))]
      = example_table ++ [(k, sz)]) ∨
     (∃ i k' v', example_table !! i = Some (k', v') ∧ key_eqb k' k = true ∧
                 Forall (λ e, key_eqb (fst e) k = false) (take i example_table) ∧
                 [(KNum (NInt 0), (Some 100, Some 100)); (KNum (NInt 10), (Some 1, None))]
                 = <[i := (k', sz)]> example_table)).
Proof.
  apply (later_keyframe_replaces (NInt 640) (NInt 480) (NInt 20) example_table
           [(KNum (NInt 0), (Some 100, Some 100)); (KNum (NInt 10), (Some 1, None))]
           (JObj [("time", JNum (NFloat (float_of_Z 10)));
                  ("size", JObj [("width", JNum (NInt 1))])])).
  by vm_compute.
Defined.

Lemma distinct_keys_snoc info k v :
  distinct_keys info → Forall (λ e, key_eqb (fst e) k = false) info →
  distinct_keys (info ++ [(k, v)]).
Proof.
  induction info as [|[k0 v0] info IH]; cbn [distinct_keys app].
  - intros _ _. by split.
  - intros [Hk0 Hd] [Hk0k Hnone]%Forall_cons. split.
    + apply Forall_app. split; [done|]. by constructor.
    + by apply IH.
Qed.

Lemma distinct_keys_insert info i k v v' :
  info !! i = Some (k, v) → distinct_keys info → distinct_keys (<[i := (k, v')]> info).
Proof.
  revert i. induction info as [|[k0 v0] info IH]; intros [|i]; cbn [distinct_keys]; try done.
  - intros [= -> ->]. done.
  - cbn. intros Hi [Hk0 Hd]. split; [|by apply (IH i)].
    apply Forall_insert; [done|].
    rewrite Forall_forall in Hk0. apply (Hk0 (k, v)). by eapply list_elem_of_lookup_2.
Qed.

Lemma table_set_distinct info k v :
  distinct_keys info → distinct_keys (table_set info k v).
Proof.
  intros Hd. destruct (table_set_cases info k v)
    as [[Hnone ->]|(i & k' & v' & Hi & Hk' & Hbefore & ->)].
  - by apply distinct_keys_snoc.
  - by eapply distinct_keys_insert.
Qed.

Lemma table_set_length info k v :
  (length (table_set info k v) ≤ S (length info))%nat.
Proof.
  destruct (table_set_cases info k v)
    as [[Hnone ->]|(i & k' & v' & Hi & Hk' & Hbefore & ->)].
  - rewrite length_app. cbn. lia.
  - rewrite length_insert. lia.
Qed.

Lemma readKeyframes_distinct width height duration kfs :
  ∀ info info',
    readKeyframes width height duration info kfs = Ok info' →
    distinct_keys info →
    distinct_keys info' ∧ (length info' ≤ length info + length kfs)%nat.
Proof.
  induction kfs as [|kf kfs IH]; intros info info'; cbn [readKeyframes].
  - intros [= <-] Hd. split; [done|]. cbn. lia.
  - intros H Hd. apply bind_inv in H as (info1 & Hkf & H).
    apply readKeyframe_ok in Hkf as (t & size & sz & k & _ & _ & _ & _ & _ & ->).
    destruct (IH _ _ H (table_set_distinct info k sz Hd)) as [Hd' Hlen].
    split; [done|]. pose proof (table_set_length info k sz). cbn [length]. lia.
Qed.

(** X10.  In a table that [readInstructions] returns no two entries have
    equal times (an integer and a float of the same value are equal), and
    it has at most as many entries as the document has keyframes. *)
Theorem readInstructions_distinct_times width height duration instructions kfs items info :
  py_getitem instructions "keyframes" = Ok kfs → py_iter kfs = Ok items →
  readInstructions width height duration (Doc instructions) = Ok info →
  distinct_keys info ∧ (length info ≤ length items)%nat.
Proof.
  intros Hkfs Hitems. cbn [readInstructions]. intros H.
  apply bind_inv in H as (b & _ & H). destruct b; [|done]. cbn [negb] in H.
  rewrite Hkfs, bind_ok, Hitems, bind_ok in H.
  by apply readKeyframes_distinct in H.
Qed.

Lemma readInstructions_distinct_times_witness :
  distinct_keys example_table ∧ (length example_table ≤ 2)%nat.
Proof.
  refine (readInstructions_distinct_times (NInt 640) (NInt 480) (NFloat (float_of_Z 10))
            example_doc _ _ example_table eq_refl eq_refl _).
  by vm_compute.
Defined.

Lemma names_true field size : names field size = true → py_in field size = Ok true.
Proof. unfold names. by destruct (py_in field size) as [[]|]. Qed.

Lemma names_false field size b :
  py_in field size = Ok b → names field size = b.
Proof. unfold names. by intros ->; destruct b. Qed.

(** X11.  When the five tests of a size specification go through, the
    width is the one of the last test that names it: ["width"] before
    ["wScale"] before ["scale"], and the height likewise with ["height"]
    and ["hScale"]; a dimension no field names is unset. *)
Theorem resolve_size_precedence width height size ow oh :
  resolve_size width height size = Ok (ow, oh) →
  chosen_dim width size "width" "wScale" = Ok ow ∧
  chosen_dim height size "height" "hScale" = Ok oh.
Proof.
  unfold resolve_size, chosen_dim. intros H.
  apply bind_inv in H as (b1 & B1 & H). apply bind_inv in H as (k1 & H1 & H).
  apply bind_inv in H as (b2 & B2 & H). apply bind_inv in H as (k2 & H2 & H).
  apply bind_inv in H as (b3 & B3 & H). apply bind_inv in H as (k3 & H3 & H).
  apply bind_inv in H as (b4 & B4 & H). apply bind_inv in H as (k4 & H4 & H).
  apply bind_inv in H as (b5 & B5 & H). apply bind_inv in H as (k5 & H5 & H).
  injection H as Hk5.
  rewrite (names_false _ _ _ B1), (names_false _ _ _ B2), (names_false _ _ _ B3),
    (names_false _ _ _ B4), (names_false _ _ _ B5).
  assert (E1 : (if b1 then v ← scaled width size "scale"; Ok (Some v) else Ok None) = Ok (fst k1) ∧
               (if b1 then v ← scaled height size "scale"; Ok (Some v) else Ok None) = Ok (snd k1)).
  { destruct b1; [|by injection H1 as <-].
    apply bind_inv in H1 as (w & -> & H1). apply bind_inv in H1 as (h & -> & H1).
    by injection H1 as <-. }
  assert (E2 : (if b2 then v ← scaled width size "wScale"; Ok (Some v) else Ok (fst k1)) = Ok (fst k2)
               ∧ snd k2 = snd k1).
  { destruct b2; [|by injection H2 as <-].
    apply bind_inv in H2 as (w & -> & H2). by injection H2 as <-. }
  assert (E3 : fst k3 = fst k2 ∧
               (if b3 then v ← scaled height size "hScale"; Ok (Some v) else Ok (snd k2)) = Ok (snd k3)).
  { destruct b3; [|by injection H3 as <-].
    apply bind_inv in H3 as (h & -> & H3). by injection H3 as <-. }
  assert (E4 : (if b4 then x ← py_getitem size "width"; v ← py_int x; Ok (Some v)
                else Ok (fst k3)) = Ok (fst k4) ∧ snd k4 = snd k3).
  { destruct b4; [|by injection H4 as <-].
    apply bind_inv in H4 as (x & Hx & H4). apply bind_inv in H4 as (w & Hv & H4).
    rewrite Hx, bind_ok, Hv, bind_ok. by injection H4 as <-. }
  assert (E5 : fst k5 = fst k4 ∧
               (if b5 then x ← py_getitem size "height"; v ← py_int x; Ok (Some v)
                else Ok (snd k4)) = Ok (snd k5)).
  { destruct b5; [|by injection H5 as <-].
    apply bind_inv in H5 as (x & Hx & H5). apply bind_inv in H5 as (h & Hv & H5).
    rewrite Hx, bind_ok, Hv, bind_ok. by injection H5 as <-. }
  destruct E1 as [E1w E1h], E2 as [E2w E2h], E3 as [E3w E3h], E4 as [E4w E4h],
    E5 as [E5w E5h].
  replace ow with (fst k5) by by rewrite Hk5.
  replace oh with (snd k5) by by rewrite Hk5.
  rewrite E5w, <- E4w, <- E5h, E3w, E4h. split.
  - destruct b4; [done|]. rewrite <- E2w. destruct b2; [done|]. by rewrite <- E1w.
  - destruct b5; [done|]. rewrite <- E3h. destruct b3; [done|]. by rewrite E2h, <- E1h.
Qed.

Lemma resolve_size_precedence_witness :
  chosen_dim (NInt 10) mixed_size "width" "wScale" = Ok (Some 7) ∧
  chosen_dim (NInt 10) mixed_size "height" "hScale" = Ok (Some 20).
Proof.
  apply (resolve_size_precedence (NInt 10) (NInt 10) mixed_size). by vm_compute.
Defined.

End InstructionsMore.

(** ** Further properties of the file names *)

Section TextMore.

Implicit Types (old new a b s : string).

Lemma prefix_append_cases p a x :
  String.prefix p (a +:+ x) = true →
  String.prefix p a = true ∨ ∃ p', p = a +:+ p' ∧ String.prefix p' x = true.
Proof.
  revert a. induction p as [|c p IH]; intros a.
  - intros _. left. by destruct a.
  - destruct a as [|d a].
    + intros H. right. by exists (String c p).
    + rewrite append_cons. cbn [String.prefix].
      destruct (ascii_dec c d) as [->|]; [|done]. intros H.
      destruct (IH a H) as [Ha|(p' & -> & Hp')]; [by left|].
      right. by exists p'.
Qed.

Lemma prefix_first_char c p x :
  has_char c p = false → p ≠ EmptyString → String.prefix p (String c x) = false.
Proof.
  destruct p as [|d p]; [done|]. cbn [has_char String.prefix].
  intros [Hcd _]%orb_false_elim _.
  destruct (ascii_dec d c) as [->|]; [|done]. by rewrite Ascii.eqb_refl in Hcd.
Qed.

Lemma has_char_append c a b :
  has_char c (a +:+ b) = has_char c a || has_char c b.
Proof.
  induction a as [|d a IH]; [done|]. rewrite append_cons. cbn [has_char].
  by rewrite IH, orb_assoc.
Qed.

(** an occurrence of [old] cannot begin inside [a] and end inside a
    following [old], when the first character of [old] is not met again in
    it *)
Lemma prefix_no_overlap c old' a x :
  has_char c old' = false →
  String.prefix (String c old') a = false →
  a ≠ EmptyString →
  String.prefix (String c old') (a +:+ String c x) = false.
Proof.
  intros Hc Ha Hne.
  destruct (String.prefix (String c old') (a +:+ String c x)) eqn:Hp; [|done].
  apply prefix_append_cases in Hp as [Hp|(p' & Hold & Hp')]; [congruence|].
  destruct a as [|d a]; [done|]. rewrite append_cons in Hold.
  injection Hold as <- ->.
  destruct p' as [|e p'].
  - rewrite append_nil_r in Ha. cbn [String.prefix] in Ha.
    destruct (ascii_dec c c); [|done].
    assert (String.prefix a (a +:+ EmptyString) = true) as Hs by apply prefix_append.
    rewrite append_nil_r in Hs. congruence.
  - rewrite has_char_append in Hc. apply orb_false_elim in Hc as [_ Hc].
    by rewrite prefix_first_char in Hp'.
Qed.

Lemma replace_go_skip old new s b :
  replace_go old new None (String.length s) (s +:+ b) = replace_go old new None 0 b.
Proof.
  induction s as [|c s IH]; [by destruct b|].
  rewrite append_cons. cbn [String.length replace_go]. apply IH.
Qed.

Lemma replace_at_occurrence c old' new a b :
  has_char c old' = false →
  contains (String c old') a = false →
  replace (String c old') new (a +:+ String c old' +:+ b)
  = a +:+ new +:+ replace (String c old') new b.
Proof.
  intros Hc. unfold replace. induction a as [|d a IH]; intros Ha.
  - change (EmptyString +:+ String c old' +:+ b) with (String c (old' +:+ b)).
    rewrite replace_go_cons_hit.
    + cbn [String.length]. rewrite Nat.sub_1_r. cbn [Nat.pred].
      by rewrite replace_go_skip.
    + change (String c (old' +:+ b)) with (String c old' +:+ b). apply prefix_append.
  - cbn [contains] in Ha. apply orb_false_elim in Ha as [Hp Ha].
    rewrite !(append_cons d). rewrite replace_go_cons_miss.
    + by rewrite IH.
    + rewrite <- (append_cons d).
      change (String c old' +:+ b) with (String c (old' +:+ b)).
      by apply prefix_no_overlap.
Qed.

(** X12.  [getOutput] rewrites every [".mp4"] of a path, from the left, not
    only the extension: up to and including its first [".mp4"] the path
    becomes the text before it followed by ["_resized.webm"], and the rest
    is treated in the same way. *)
Theorem getOutput_at_occurrence a b :
  contains ".mp4" a = false →
  getOutput (a +:+ ".mp4" +:+ b) = a +:+ "_resized.webm" +:+ getOutput b.
Proof. intros Ha. unfold getOutput. by apply replace_at_occurrence. Qed.

Lemma getOutput_at_occurrence_witness :
  getOutput "my.mp4.dir/clip.mp4" = "my_resized.webm.dir/clip_resized.webm".
Proof.
  etransitivity.
  - exact (getOutput_at_occurrence "my" ".dir/clip.mp4" eq_refl).
  - by vm_compute.
Defined.

(** X13.  [getFrames] undoes the naming of the still images: of a
    directory that holds the files [a.png], for names [a] without [".png"]
    in them, it returns the names [a], in the order of the listing. *)
Theorem getFrames_strips_extension (names : list string) :
  Forall (λ a, contains ".png" a = false) names →
  getFrames (Some ((λ a, a +:+ ".png") <$> names)) = Some names.
Proof.
  intros Hnames. cbn [getFrames]. f_equal.
  induction Hnames as [|a names Ha _ IH]; [done|]. cbn [fmap list_fmap].
  rewrite IH. f_equal.
  pose proof (replace_at_occurrence "." "png" EmptyString a EmptyString eq_refl Ha) as H.
  change (replace ".png" EmptyString EmptyString) with EmptyString in H.
  by rewrite !append_nil_r in H.
Qed.

Lemma getFrames_strips_extension_witness :
  getFrames (Some [frame_png 0; frame_png 11]) = Some ["frame-0"; "frame-11"].
Proof.
  apply (getFrames_strips_extension ["frame-0"; "frame-11"]).
  repeat constructor.
Defined.

End TextMore.

(** ** Further properties of the stages and of a whole run *)

Section RunMore.

Implicit Types (info : table) (fps duration time : num) (fs : fsys).


Lemma during_quiet {A : Type} w p (m : M A) : sigint w = None → during w p m = m.
Proof. intros Hw. unfold during. rewrite Hw. by case_decide. Qed.

Lemma prepare_spec fs :
  ∃ fr c, prepare fs = (Ok (), Fsys true fr c (issued fs) (moved fs)).
Proof. destruct fs as [[] fr c iss mv]; cbn; eauto. Qed.










Lemma makeTransparentImages_empty info count fps duration fs :
  count ≤ 0 → makeTransparentImages info count fps duration fs = (Exc ValueError, fs).
Proof.
  intros Hcount. unfold makeTransparentImages.
  replace (Z.to_nat count) with 0%nat by lia. by destruct fs.
Qed.

(** X17.  A transparent run asked for no frame at all (duration, frame
    rate and loop count multiply to zero or less) with instructions that
    read well and no interrupt: it ends with an uncaught [ValueError],
    raised by [max] of the empty index list, before any command is issued,
    and the staging directory that [prepare] made is left behind. *)
Theorem transparent_run_without_frames w slow duration fps width height loop fs n info :
  sigint w = None →
  (a ← mul duration fps; b ← mul a loop; ceil b) = Ok n → n ≤ 0 →
  readInstructions width height duration (instructions_json w) = Ok info →
  makeTransparentVideo w slow duration fps width height loop fs
  = (Exc ValueError, snd (prepare fs)) ∧
  temp (snd (prepare fs)) = true ∧
  issued (snd (prepare fs)) = issued fs ∧ moved (snd (prepare fs)) = moved fs.
Proof.
  intros Hw Hn Hle Hinfo. destruct (prepare_spec fs) as (fr & c & Hprep).
  rewrite Hprep. cbn [snd temp issued moved]. split; [|done].
  unfold makeTransparentVideo. rewrite (lift_bind_ok _ n) by done.
  rewrite M_bind_unfold. unfold safeExit.
  rewrite M_bind_unfold, during_quiet, Hprep by done.
  rewrite M_bind_unfold, during_quiet by done. unfold lift at 1. rewrite Hinfo.
  rewrite M_bind_unfold, during_quiet by done.
  by rewrite makeTransparentImages_empty.
Qed.

Lemma transparent_run_without_frames_witness :
  makeTransparentVideo example_world false (NFloat (float_of_Z 10)) (NInt 0) (NInt 500)
    (NInt 500) (NInt 1) clean
  = (Exc ValueError, Fsys true ∅ [] [] []).
Proof.
  refine (proj1 (transparent_run_without_frames example_world false (NFloat (float_of_Z 10))
                   (NInt 0) (NInt 500) (NInt 500) (NInt 1) clean 0 example_table
                   eq_refl _ _ _)).
  - by vm_compute.
  - lia.
  - by vm_compute.
Defined.








End RunMore.
